(** * STACpopulator.stac_utils: a shallow embedding and its properties

    The module is a thin client of a STAC catalogue server: a URL syntax
    check made of one regular expression, two probes over HTTP, a builder
    of STAC Collection documents and a publisher (POST, then PUT on
    conflict).

    Part I embeds the code of [src/STACpopulator/stac_utils.py], function
    by function and under the source's names, together with the pieces of
    the Python libraries the functions call ([re], [os.path],
    [datetime.strptime], [requests], [pystac]).  Part II states and proves
    the properties.

    Conventions.
    - The argument of [url_validate], every character of which the
      pattern classifies, is a [str]: the list of its code points, with
      the classes of [re] as the Unicode database gives them.  The other
      strings of the program (URLs that are joined and sent, keys, dates)
      are Rocq [string]s, of characters below 256.
    - A Python [int] is a [Z]; a [float] is carried as its 64-bit pattern
      and never computed with.
    - A call that can raise returns a [result]; code that mutates a
      dictionary or talks to the network threads the dictionary, or the
      list of events, explicitly. *)

From Stdlib Require Import ZArith NArith Ascii String List Bool Lia.
From stdpp Require Import gmap strings list pretty.

#[local] Set Warnings "-register-all,-clear-no-such-hyp".
#[local] Open Scope Z_scope.

(* ================================================================= *)
(** * Part I: the model                                               *)
(* ================================================================= *)

(** ** Characters and strings *)

Abbreviation chars := list_ascii_of_string.

Definition code (c : ascii) : Z := Z.of_N (N_of_ascii c).

Definition in_range (lo hi c : ascii) : bool :=
  (code lo <=? code c) && (code c <=? code hi).

Definition is_digit (c : ascii) : bool := in_range "0" "9" c.

(** *** Code points

    [url_validate] puts every character of its argument in a class, and
    [re] does that by the Unicode character database.  So the argument
    of [url_validate] is a [str] in full: the list of its code points. *)

Abbreviation codepoint := N.
Abbreviation str := (list codepoint).

(** [ord(c)] for a character below 256, and a string of such characters
    as a [str]. *)
Definition ord (c : ascii) : codepoint := N_of_ascii c.
Definition codepoints (s : string) : str := map ord (chars s).

#[local] Open Scope N_scope.

Definition between (lo hi c : codepoint) : bool := (lo <=? c) && (c <=? hi).

Definition in_table (table : list (codepoint * codepoint)) (c : codepoint) : bool :=
  existsb (fun r => between (fst r) (snd r) c) table.

(** [\d] on a [str]: the decimal digits of Unicode (general category
    Nd), first and last of each run.  The table is that of Unicode 14.0,
    which Python 3.11 carries: 660 characters. *)
Definition decimal_digits : list (codepoint * codepoint) :=
  [(0x30, 0x39); (0x660, 0x669); (0x6F0, 0x6F9); (0x7C0, 0x7C9);
   (0x966, 0x96F); (0x9E6, 0x9EF); (0xA66, 0xA6F); (0xAE6, 0xAEF);
   (0xB66, 0xB6F); (0xBE6, 0xBEF); (0xC66, 0xC6F); (0xCE6, 0xCEF);
   (0xD66, 0xD6F); (0xDE6, 0xDEF); (0xE50, 0xE59); (0xED0, 0xED9);
   (0xF20, 0xF29); (0x1040, 0x1049); (0x1090, 0x1099); (0x17E0, 0x17E9);
   (0x1810, 0x1819); (0x1946, 0x194F); (0x19D0, 0x19D9); (0x1A80, 0x1A89);
   (0x1A90, 0x1A99); (0x1B50, 0x1B59); (0x1BB0, 0x1BB9); (0x1C40, 0x1C49);
   (0x1C50, 0x1C59); (0xA620, 0xA629); (0xA8D0, 0xA8D9); (0xA900, 0xA909);
   (0xA9D0, 0xA9D9); (0xA9F0, 0xA9F9); (0xAA50, 0xAA59); (0xABF0, 0xABF9);
   (0xFF10, 0xFF19); (0x104A0, 0x104A9); (0x10D30, 0x10D39);
   (0x11066, 0x1106F); (0x110F0, 0x110F9); (0x11136, 0x1113F);
   (0x111D0, 0x111D9); (0x112F0, 0x112F9); (0x11450, 0x11459);
   (0x114D0, 0x114D9); (0x11650, 0x11659); (0x116C0, 0x116C9);
   (0x11730, 0x11739); (0x118E0, 0x118E9); (0x11950, 0x11959);
   (0x11C50, 0x11C59); (0x11D50, 0x11D59); (0x11DA0, 0x11DA9);
   (0x16A60, 0x16A69); (0x16AC0, 0x16AC9); (0x16B50, 0x16B59);
   (0x1D7CE, 0x1D7FF); (0x1E140, 0x1E149); (0x1E2F0, 0x1E2F9);
   (0x1E950, 0x1E959); (0x1FBF0, 0x1FBF9)].

Definition is_decimal (c : codepoint) : bool := in_table decimal_digits c.

(** [\s] on a [str]: the white space of Unicode, 29 characters. *)
Definition white_space : list (codepoint * codepoint) :=
  [(0x9, 0xD); (0x1C, 0x20); (0x85, 0x85); (0xA0, 0xA0); (0x1680, 0x1680);
   (0x2000, 0x200A); (0x2028, 0x2029); (0x202F, 0x202F); (0x205F, 0x205F);
   (0x3000, 0x3000)].

Definition is_space (c : codepoint) : bool := in_table white_space c.

Definition newline : codepoint := 10.

(** [re.IGNORECASE] on a [str], for the ASCII characters of a pattern.
    When it compiles a pattern, sre puts the characters of literals and
    sets in lower case and adds to [i] and [s] their extra cases, the
    dotless [ı] (U+0131) and the long [ſ] (U+017F).  When it matches, it
    puts the character of the subject in lower case by the simple
    lower-case mapping of Unicode, and then compares.  That mapping
    sends to an ASCII letter the capital ASCII letters, the dotted
    capital [İ] (U+0130, to [i]) and the Kelvin sign (U+212A, to [k]),
    and nothing else.  So [fold_case c] is the ASCII letter that [c] is
    a case of, if there is one, and [c] itself otherwise; a character of
    the subject matches an ASCII character of the pattern exactly when
    the two have the same [fold_case]. *)
Definition fold_case (c : codepoint) : codepoint :=
  if between (ord "A") (ord "Z") c then c + 32
  else if (c =? 0x130) || (c =? 0x131) then ord "i"
  else if c =? 0x17F then ord "s"
  else if c =? 0x212A then ord "k"
  else c.

(** What [A-Z] takes under [re.IGNORECASE]: 56 characters. *)
Definition is_letter (c : codepoint) : bool :=
  between (ord "a") (ord "z") (fold_case c).
Definition is_alnum (c : codepoint) : bool := is_letter c || is_decimal c.
Definition is_alnum_hyphen (c : codepoint) : bool := is_alnum c || (c =? ord "-").

(** The characters from [lo] to [hi]. *)
Definition range (lo hi : codepoint) : list codepoint :=
  map (fun k => lo + N.of_nat k) (seq 0 (N.to_nat (hi + 1 - lo))).

#[local] Close Scope N_scope.

(** ** Regular expressions ([re])

    Only the constructs of the patterns of this program: literals, sets
    and ranges, [\d], [\S], grouping, alternation, [?], [+], [{m,n}] and
    [{m,}].  None of them can tell a backtracking matcher from the
    language they denote, so whether [re.match] finds a match is
    membership of the subject in that language. *)

Inductive cset :=
  | CChar (c : codepoint)       (* a literal character *)
  | CRange (lo hi : codepoint)  (* lo-hi inside [...] *)
  | CDigit                      (* \d *)
  | CNonSpace.                  (* \S *)

Inductive regex :=
  | Void                        (* matches nothing; arises in derivatives *)
  | Eps                         (* the empty pattern *)
  | Sym (cs : list cset)        (* one character out of a set *)
  | Cat (r1 r2 : regex)
  | Alt (r1 r2 : regex)
  | Star (r : regex).

Definition Lit (c : codepoint) : regex := Sym [CChar c].
Definition Opt (r : regex) : regex := Alt r Eps.             (* r? *)
Definition Plus (r : regex) : regex := Cat r (Star r).        (* r+ *)

Fixpoint Str (s : str) : regex :=
  match s with
  | [] => Eps
  | c :: s' => Cat (Lit c) (Str s')
  end.

Fixpoint Times (n : nat) (r : regex) : regex :=               (* r{n} *)
  match n with
  | O => Eps
  | S n' => Cat r (Times n' r)
  end.

Fixpoint UpTo (n : nat) (r : regex) : regex :=                (* r{0,n} *)
  match n with
  | O => Eps
  | S n' => Opt (Cat r (UpTo n' r))
  end.

Definition Rep (m n : nat) (r : regex) : regex :=             (* r{m,n} *)
  Cat (Times m r) (UpTo (n - m) r).

Definition RepMin (m : nat) (r : regex) : regex :=            (* r{m,} *)
  Cat (Times m r) (Star r).

Definition cset_mem (i : cset) (c : codepoint) : bool :=
  match i with
  | CChar x => N.eqb c x
  | CRange lo hi => between lo hi c
  | CDigit => is_decimal c
  | CNonSpace => negb (is_space c)
  end.

(** Under [re.IGNORECASE] a character is in a set when it is a case of
    a member of the set; the classes [\d] and [\S] have no case. *)
Definition cset_mem_ignorecase (i : cset) (c : codepoint) : bool :=
  match i with
  | CChar x => N.eqb (fold_case c) (fold_case x)
  | CRange lo hi => existsb (fun x => N.eqb (fold_case c) (fold_case x)) (range lo hi)
  | CDigit => is_decimal c
  | CNonSpace => negb (is_space c)
  end.

Definition sym_mem (icase : bool) (cs : list cset) (c : codepoint) : bool :=
  existsb (fun i => if icase then cset_mem_ignorecase i c else cset_mem i c) cs.

(** The language of a pattern. *)
Inductive matches (icase : bool) : regex -> str -> Prop :=
  | M_eps : matches icase Eps []
  | M_sym cs c : sym_mem icase cs c = true -> matches icase (Sym cs) [c]
  | M_cat r1 r2 u v :
      matches icase r1 u -> matches icase r2 v -> matches icase (Cat r1 r2) (u ++ v)
  | M_alt_l r1 r2 u : matches icase r1 u -> matches icase (Alt r1 r2) u
  | M_alt_r r1 r2 u : matches icase r2 u -> matches icase (Alt r1 r2) u
  | M_star_nil r : matches icase (Star r) []
  | M_star_cons r u v :
      matches icase r u -> matches icase (Star r) v -> matches icase (Star r) (u ++ v).

(** The matcher: derivatives, pruned of dead branches as they are built. *)
Fixpoint nullable (r : regex) : bool :=
  match r with
  | Void => false
  | Eps => true
  | Sym _ => false
  | Cat r1 r2 => nullable r1 && nullable r2
  | Alt r1 r2 => nullable r1 || nullable r2
  | Star _ => true
  end.

Definition mkCat (r1 r2 : regex) : regex :=
  match r1, r2 with
  | Void, _ => Void
  | _, Void => Void
  | Eps, _ => r2
  | _, _ => Cat r1 r2
  end.

Definition mkAlt (r1 r2 : regex) : regex :=
  match r1, r2 with
  | Void, _ => r2
  | _, Void => r1
  | _, _ => Alt r1 r2
  end.

Fixpoint deriv (icase : bool) (c : codepoint) (r : regex) : regex :=
  match r with
  | Void => Void
  | Eps => Void
  | Sym cs => if sym_mem icase cs c then Eps else Void
  | Cat r1 r2 =>
      mkAlt (mkCat (deriv icase c r1) r2)
            (if nullable r1 then deriv icase c r2 else Void)
  | Alt r1 r2 => mkAlt (deriv icase c r1) (deriv icase c r2)
  | Star r1 => mkCat (deriv icase c r1) (Star r1)
  end.

Fixpoint fullmatch (icase : bool) (r : regex) (s : str) : bool :=
  match s with
  | [] => nullable r
  | c :: s' => fullmatch icase (deriv icase c r) s'
  end.

(** The subject without the line feed that ends it, if one does. *)
Fixpoint strip_final_newline (s : str) : option str :=
  match s with
  | [] => None
  | [c] => if N.eqb c newline then Some [] else None
  | c :: s' => option_map (cons c) (strip_final_newline s')
  end.

(** [re.match] of a pattern [^body$].  [re.match] anchors the start; [$]
    holds at the end of the subject and also just before a line feed
    that ends the subject. *)
Definition re_match_dollar (icase : bool) (body : regex) (s : str) : bool :=
  fullmatch icase body s
  || match strip_final_newline s with
     | Some s' => fullmatch icase body s'
     | None => false
     end.

(** ** url_validate *)

Definition AZ : list cset := [CRange (ord "A") (ord "Z")].
Definition AZd : list cset := [CRange (ord "A") (ord "Z"); CDigit].
Definition AZd_hyphen : list cset :=
  [CRange (ord "A") (ord "Z"); CDigit; CChar (ord "-")].

(** [(?:http|ftp)s?://] *)
Definition scheme_re : regex :=
  Cat (Alt (Str (codepoints "http")) (Str (codepoints "ftp")))
      (Cat (Opt (Lit (ord "s"))) (Str (codepoints "://"))).

(** [[A-Z\d](?:[A-Z\d-]{0,61}[A-Z\d])?] *)
Definition label_re : regex :=
  Cat (Sym AZd) (Opt (Cat (Rep 0 61 (Sym AZd_hyphen)) (Sym AZd))).

(** [(?:[A-Z]{2,6}\.?|[A-Z\d-]{2,}\.?)] *)
Definition tld_re : regex :=
  Alt (Cat (Rep 2 6 (Sym AZ)) (Opt (Lit (ord "."))))
      (Cat (RepMin 2 (Sym AZd_hyphen)) (Opt (Lit (ord ".")))).

(** [(?:label\.)+tld] *)
Definition domain_re : regex :=
  Cat (Plus (Cat label_re (Lit (ord ".")))) tld_re.

Definition localhost_re : regex := Str (codepoints "localhost").

(** [\d{1,3}\.\d{1,3}\.\d{1,3}\.\d{1,3}] *)
Definition ip_re : regex :=
  let octet := Rep 1 3 (Sym [CDigit]) in
  Cat octet (Cat (Lit (ord ".")) (Cat octet (Cat (Lit (ord "."))
    (Cat octet (Cat (Lit (ord ".")) octet))))).

Definition host_re : regex := Alt domain_re (Alt localhost_re ip_re).

(** [(?::\d+)?] *)
Definition port_re : regex := Opt (Cat (Lit (ord ":")) (Plus (Sym [CDigit]))).

(** [(?:/?|[/?]\S+)] *)
Definition path_re : regex :=
  Alt (Opt (Lit (ord "/")))
      (Cat (Sym [CChar (ord "/"); CChar (ord "?")]) (Plus (Sym [CNonSpace]))).

(** The pattern between [^] and [$]. *)
Definition url_regex : regex :=
  Cat scheme_re (Cat host_re (Cat port_re path_re)).

Definition IGNORECASE : bool := true.

Definition url_validate (target : str) : bool :=
  if re_match_dollar IGNORECASE url_regex target then true else false.

(** The same language in the words of the specification: a scheme, then
    [://], then a host that is a domain name, [localhost] or a dotted
    quad, then an optional port and an optional path or query.  Letters
    are taken without regard to case, which is [fold_case]; digits are
    the decimal digits of Unicode. *)

Definition is_scheme (s : str) : Prop :=
  In (map fold_case s)
     [codepoints "http"; codepoints "https"; codepoints "ftp"; codepoints "ftps"].

(** A label: 1 to 63 letters, digits or hyphens, neither first nor last a
    hyphen. *)
Definition is_label (l : str) : Prop :=
  (1 <= length l <= 63)%nat
  /\ forallb is_alnum_hyphen l = true
  /\ (exists c, head l = Some c /\ is_alnum c = true)
  /\ (exists c, last l = Some c /\ is_alnum c = true).

(** The last token of a domain name: 2 to 6 letters, or 2 or more
    letters, digits or hyphens. *)
Definition is_tld (t : str) : Prop :=
  ((2 <= length t <= 6)%nat /\ forallb is_letter t = true)
  \/ ((2 <= length t)%nat /\ forallb is_alnum_hyphen t = true).

Definition with_dot (l : str) : str := l ++ [ord "."].

(** One or more labels, each followed by a dot, then the last token and
    an optional final dot. *)
Definition is_domain (h : str) : Prop :=
  exists labels tld dot,
    labels <> [] /\ Forall is_label labels /\ is_tld tld
    /\ (dot = [] \/ dot = [ord "."])
    /\ h = concat (map with_dot labels) ++ tld ++ dot.

Definition is_localhost (h : str) : Prop :=
  map fold_case h = codepoints "localhost".

(** A group of 1 to 3 digits; its value is not looked at. *)
Definition is_octet (o : str) : Prop :=
  (1 <= length o <= 3)%nat /\ forallb is_decimal o = true.

Definition is_dotted_quad (h : str) : Prop :=
  exists a b c d,
    is_octet a /\ is_octet b /\ is_octet c /\ is_octet d
    /\ h = a ++ ord "." :: b ++ ord "." :: c ++ ord "." :: d.

Definition is_host (h : str) : Prop :=
  is_domain h \/ is_localhost h \/ is_dotted_quad h.

Definition is_port (p : str) : Prop :=
  p = [] \/ exists d, d <> [] /\ forallb is_decimal d = true /\ p = ord ":" :: d.

Definition non_space (c : codepoint) : bool := negb (is_space c).

Definition is_path (p : str) : Prop :=
  p = [] \/ p = [ord "/"]
  \/ exists c rest,
       (c = ord "/" \/ c = ord "?") /\ rest <> []
       /\ forallb non_space rest = true /\ p = c :: rest.

Definition url_shape (s : str) : Prop :=
  exists scheme host port path,
    is_scheme scheme /\ is_host host /\ is_port port /\ is_path path
    /\ s = scheme ++ codepoints "://" ++ host ++ port ++ path.

(** ** Python values *)

(** A [datetime] made by [strptime] from a date: midnight, no time zone. *)
Record datetime := { year : Z; month : Z; day : Z }.

(** The values a configuration mapping and a document hold: plain data,
    and the two pystac objects the builder stores in the mapping.
    - [VExtent bboxes intervals] is a [pystac.Extent] over a
      [SpatialExtent] with those [bboxes] and a [TemporalExtent] with
      those [intervals];
    - [VSummaries lists] is a [pystac.Summaries] whose summaries are all
      lists of values. *)
Inductive value :=
  | VNone
  | VBool (b : bool)
  | VInt (z : Z)
  | VFloat (bits : Z)
  | VStr (s : string)
  | VList (l : list value)
  | VDict (d : gmap string value)
  | VExtent (bboxes : value) (intervals : list (option datetime * option datetime))
  | VSummaries (lists : gmap string (list value)).

(** Truth value of an object ([bool(v)]). *)
Definition truthy (v : value) : bool :=
  match v with
  | VNone => false
  | VBool b => b
  | VInt z => negb (z =? 0)
  | VFloat bits => negb ((bits =? 0) || (bits =? 2 ^ 63))      (* 0.0 and -0.0 *)
  | VStr s => negb (String.eqb s "")
  | VList l => match l with [] => false | _ => true end
  | VDict d => negb (bool_decide (d = ∅))
  | VExtent _ _ => true
  | VSummaries _ => true
  end.

(** ** Exceptions *)

(** The classes of [requests.exceptions]. *)
Inductive requests_exception :=
  | RequestException | InvalidJSONError | JSONDecodeError | HTTPError
  | ConnectionError | ProxyError | SSLError | Timeout | ConnectTimeout
  | ReadTimeout | URLRequired | TooManyRedirects | MissingSchema
  | InvalidSchema | InvalidURL | InvalidHeader | InvalidProxyURL
  | ChunkedEncodingError | ContentDecodingError | StreamConsumedError
  | RetryError | UnrewindableBodyError.

#[global] Instance requests_exception_eq_dec : EqDecision requests_exception.
Proof. solve_decision. Defined.

(** Their base classes inside the module. *)
Definition bases (c : requests_exception) : list requests_exception :=
  match c with
  | RequestException => []
  | JSONDecodeError => [InvalidJSONError]
  | ProxyError | SSLError => [ConnectionError]
  | ConnectTimeout => [ConnectionError; Timeout]
  | ReadTimeout => [Timeout]
  | InvalidProxyURL => [InvalidURL]
  | _ => [RequestException]
  end.

Fixpoint issubclass_upto (depth : nat) (c d : requests_exception) : bool :=
  bool_decide (c = d)
  || match depth with
     | O => false
     | S n => existsb (fun b => issubclass_upto n b d) (bases c)
     end.

Definition issubclass : requests_exception -> requests_exception -> bool :=
  issubclass_upto 3.

Inductive exn :=
  | KeyError (key : value)
  | IndexError
  | TypeError
  | ValueError
  | AttributeError
  | NameError (name : string)
  | RequestsError (c : requests_exception)
  | LocationParseError
      (* urllib3.exceptions.LocationParseError: a ValueError and a
         urllib3 HTTPError, no class of requests.exceptions *)
  | NotModelled (what : string).
      (* not a Python exception: the result has a part that the values
         of this model cannot hold *)

Inductive result (A : Type) :=
  | Ok (a : A)
  | Raise (e : exn).
Arguments Ok {A} a.
Arguments Raise {A} e.

Definition rbind {A B} (r : result A) (k : A -> result B) : result B :=
  match r with
  | Ok a => k a
  | Raise e => Raise e
  end.

(** ** os.path.join (posixpath) *)

Definition startswith_sep (s : string) : bool :=
  match s with
  | String "/" _ => true
  | _ => false
  end.

Fixpoint endswith_sep (s : string) : bool :=
  match s with
  | EmptyString => false
  | String c EmptyString => Ascii.eqb c "/"
  | String _ s' => endswith_sep s'
  end.

(** One turn of the loop of [posixpath.join]. *)
Definition join_step (path b : string) : string :=
  if startswith_sep b then b
  else if String.eqb path "" || endswith_sep path then path +:+ b
  else path +:+ "/" +:+ b.

Definition join (a : string) (p : list string) : string :=
  fold_left join_step p a.

(** ** requests *)

Inductive http_method := GET | POST | PUT.

Record request := {
  method : http_method;
  url : string;
  json : option value;          (* the [json=] body *)
  verify : bool                 (* certificate verification *)
}.

(** What a call of [requests.get], [.post] or [.put] comes back with:
    - a response, of which this program reads the status code only;
    - an exception of [requests.exceptions] (connection refused,
      timeout, name resolution, TLS, malformed URL);
    - an exception that requests does not wrap and lets through as it
      is.  [HTTPAdapter.send] re-raises what it has no class for: so
      urllib3's [LocationParseError], raised for a host name with an
      empty label such as [http://a..b], reaches the caller of
      [requests.get]. *)
Inductive reply :=
  | Response (status_code : Z)
  | Fails (c : requests_exception)
  | Leaks (e : exn).

(** The far side: its reply to a request, given the requests made before
    (oldest first). *)
Definition network := list request -> request -> reply.

(** What the program does to the outside, in order. *)
Inductive event :=
  | Sent (r : request)
  | Printed (line : string).

Definition sent_of (e : event) : list request :=
  match e with
  | Sent r => [r]
  | Printed _ => []
  end.

Definition requests_sent (trace : list event) : list request :=
  flat_map sent_of trace.

(** Computations that run against the network and the console: from the
    events so far to a result and the events after. *)
Definition io (A : Type) := list event -> result A * list event.

Definition io_raise {A} (e : exn) : io A := fun tr => (Raise e, tr).

Definition io_lift {A} (r : result A) : io A := fun tr => (r, tr).

#[global] Instance io_ret : MRet io := fun A a tr => (Ok a, tr).

#[global] Instance io_bind : MBind io := fun A B k m tr =>
  match m tr with
  | (Ok a, tr') => k a tr'
  | (Raise e, tr') => (Raise e, tr')
  end.

(** [except (C1, ..., Cn)]: does the clause take this exception? *)
Definition caught_by (classes : list requests_exception) (e : exn) : bool :=
  match e with
  | RequestsError c => existsb (issubclass c) classes
  | _ => false
  end.

Definition try_except {A} (body : io A) (classes : list requests_exception)
    (handler : io A) : io A :=
  fun tr =>
    match body tr with
    | (Ok a, tr') => (Ok a, tr')
    | (Raise e, tr') => if caught_by classes e then handler tr' else (Raise e, tr')
    end.

Definition print (line : string) : io unit :=
  fun tr => (Ok tt, tr ++ [Printed line]).

(** [Response.raise_for_status]: [HTTPError] for a status in 400..599,
    nothing otherwise. *)
Definition raise_for_status (status_code : Z) : io unit :=
  if (400 <=? status_code) && (status_code <? 600)
  then io_raise (RequestsError HTTPError)
  else mret tt.

(** [d[key]] on a dictionary. *)
Definition dict_getitem (d : gmap string value) (key : string) : result value :=
  match d !! key with
  | Some v => Ok v
  | None => Raise (KeyError (VStr key))
  end.

(** The names the module binds: what it imports and what it defines.
    [bcolors], which the messages of [post_stac_collection] read, is not
    among them, and is no builtin. *)
Definition module_globals : list string :=
  ["os"; "re"; "datetime"; "Any"; "pystac"; "requests";
   "url_validate"; "stac_host_reachable"; "stac_collection_exists";
   "create_stac_collection"; "post_stac_collection"; "post_stac_item"].

(** Reading a global name that is no builtin: [NameError] unless the
    module binds it. *)
Definition load_global (name : string) : result string :=
  if existsb (String.eqb name) module_globals then Ok name
  else Raise (NameError name).

(** [name.attr] as a string, for a global [name].  The modules, the
    class and the functions that the module binds have no attribute of
    the names asked for here ([OKGREEN], [WARNING], [ENDC]). *)
Definition global_attr (name attr : string) : result string :=
  rbind (load_global name) (fun _ => Raise AttributeError).

(** An f-string: literal text and replacement fields.  The fields are
    evaluated from left to right, and the first that raises ends the
    evaluation. *)
Inductive piece :=
  | Text (s : string)
  | Field (v : result string).

Fixpoint f_string (pieces : list piece) : result string :=
  match pieces with
  | [] => Ok ""
  | Text s :: rest => rbind (f_string rest) (fun t => Ok (s +:+ t))
  | Field v :: rest =>
      rbind v (fun s => rbind (f_string rest) (fun t => Ok (s +:+ t)))
  end.

Section Client.

Variable net : network.

(** [str()] of a value that is not a string, as an f-string field
    needs it. *)
Variable str_of : value -> string.

Definition format_field (v : value) : string :=
  match v with
  | VStr s => s
  | _ => str_of v
  end.

(** One call of requests: the call is recorded, and the reply decides
    between a status code and an exception. *)
Definition requests_call (r : request) : io Z :=
  fun tr =>
    match net (requests_sent tr) r with
    | Response status_code => (Ok status_code, tr ++ [Sent r])
    | Fails c => (Raise (RequestsError c), tr ++ [Sent r])
    | Leaks e => (Raise e, tr ++ [Sent r])
    end.

Definition requests_get (url : string) (verify : bool) : io Z :=
  requests_call {| method := GET; url := url; json := None; verify := verify |}.

Definition requests_post (url : string) (json : value) (verify : bool) : io Z :=
  requests_call {| method := POST; url := url; json := Some json; verify := verify |}.

Definition requests_put (url : string) (json : value) (verify : bool) : io Z :=
  requests_call {| method := PUT; url := url; json := Some json; verify := verify |}.

(** *** stac_host_reachable *)

Definition stac_host_reachable (url : string) : io bool :=
  try_except
    (registry ← requests_get url true;
     raise_for_status registry;;
     mret true)
    [RequestException; ConnectionError]
    (mret false).

(** *** stac_collection_exists *)

Definition stac_collection_exists (stac_host collection_id : string) : io bool :=
  r ← requests_get (join stac_host ["collections"; collection_id]) false;
  mret (r =? 200).

(** *** post_stac_collection *)

(** The two messages.  Each is an f-string whose first field is an
    attribute of [bcolors]. *)
Definition pushed_message (collection_id : value) (stac_host : string)
    (status_code : Z) : result string :=
  f_string
    [Field (global_attr "bcolors" "OKGREEN");
     Text "[INFO] Pushed STAC collection [";
     Field (Ok (format_field collection_id));
     Text "] to [";
     Field (Ok stac_host);
     Text "] (";
     Field (Ok (pretty status_code));
     Text ")";
     Field (global_attr "bcolors" "ENDC")].

Definition exists_message (collection_id : value) (stac_host : string)
    (status_code : Z) : result string :=
  f_string
    [Field (global_attr "bcolors" "WARNING");
     Text "[INFO] STAC collection [";
     Field (Ok (format_field collection_id));
     Text "] already exists on [";
     Field (Ok stac_host);
     Text "] (";
     Field (Ok (pretty status_code));
     Text "), updating..";
     Field (global_attr "bcolors" "ENDC")].

(** The argument of [print] is evaluated before [print] is called. *)
Definition post_stac_collection (stac_host : string)
    (json_data : gmap string value) : io unit :=
  collection_id ← io_lift (dict_getitem json_data "id");
  r ← requests_post (join stac_host ["collections"]) (VDict json_data) false;
  if r =? 200 then
    line ← io_lift (pushed_message collection_id stac_host r);
    print line
  else if r =? 409 then
    line ← io_lift (exists_message collection_id stac_host r);
    print line;;
    r ← requests_put (join stac_host ["collections"]) (VDict json_data) false;
    raise_for_status r
  else
    raise_for_status r.

End Client.

(** ** datetime.strptime with the format [%Y-%m-%d] *)

(** A piece of the pattern that [_strptime] compiles the format to: the
    ways it matches a prefix of the subject, in the order the matcher
    tries them, each with the number read and the rest of the subject. *)
Definition parser (A : Type) := list ascii -> list (A * list ascii).

#[global] Instance parser_ret : MRet parser := fun A a s => [(a, s)].

#[global] Instance parser_bind : MBind parser := fun A B k p s =>
  flat_map (fun '(a, rest) => k a rest) (p s).

Definition p_alt {A} (p q : parser A) : parser A := fun s => p s ++ q s.

(** One digit out of [lo-hi], read as its value. *)
Definition p_range (lo hi : ascii) : parser Z :=
  fun s =>
    match s with
    | c :: rest => if in_range lo hi c then [(code c - 48, rest)] else []
    | [] => []
    end.

Definition p_char (x : ascii) : parser unit :=
  fun s =>
    match s with
    | c :: rest => if Ascii.eqb c x then [(tt, rest)] else []
    | [] => []
    end.

(** [%Y] is [(?P<Y>\d\d\d\d)]. *)
Definition directive_Y : parser Z :=
  a ← p_range "0" "9"; b ← p_range "0" "9";
  c ← p_range "0" "9"; d ← p_range "0" "9";
  mret (1000 * a + 100 * b + 10 * c + d).

(** [%m] is [(?P<m>1[0-2]|0[1-9]|[1-9])]. *)
Definition directive_m : parser Z :=
  p_alt (a ← p_range "1" "1"; b ← p_range "0" "2"; mret (10 * a + b))
 (p_alt (p_char "0";; p_range "1" "9")
        (p_range "1" "9")).

(** [%d] is [(?P<d>3[0-1]|[1-2]\d|0[1-9]|[1-9]| [1-9])]. *)
Definition directive_d : parser Z :=
  p_alt (a ← p_range "3" "3"; b ← p_range "0" "1"; mret (10 * a + b))
 (p_alt (a ← p_range "1" "2"; b ← p_range "0" "9"; mret (10 * a + b))
 (p_alt (p_char "0";; p_range "1" "9")
 (p_alt (p_range "1" "9")
        (p_char " ";; p_range "1" "9")))).

Definition format_regex : parser (Z * Z * Z) :=
  y ← directive_Y; p_char "-";;
  m ← directive_m; p_char "-";;
  d ← directive_d;
  mret (y, m, d).

Definition is_leap (y : Z) : bool :=
  (y mod 4 =? 0) && (negb (y mod 100 =? 0) || (y mod 400 =? 0)).

Definition days_in_month (y m : Z) : Z :=
  if m =? 2 then (if is_leap y then 29 else 28)
  else if (m =? 4) || (m =? 6) || (m =? 9) || (m =? 11) then 30
  else 31.

(** What the [date] and [datetime] constructors check. *)
Definition valid_date (y m d : Z) : bool :=
  (1 <=? y) && (y <=? 9999) && (1 <=? m) && (m <=? 12)
  && (1 <=? d) && (d <=? days_in_month y m).

(** [_strptime]: the first match of the pattern must reach the end of
    the subject, and the numbers must make a date. *)
Definition strptime_Ymd (data_string : string) : result datetime :=
  match format_regex (chars data_string) with
  | [] => Raise ValueError                      (* does not match format *)
  | ((y, m, d), rest) :: _ =>
      match rest with
      | _ :: _ => Raise ValueError              (* unconverted data remains *)
      | [] =>
          if valid_date y m d
          then Ok {| year := y; month := m; day := d |}
          else Raise ValueError                 (* out of range *)
      end
  end.

(** [datetime.strptime(v, "%Y-%m-%d")]: the first argument must be a str. *)
Definition datetime_strptime (v : value) : result datetime :=
  match v with
  | VStr s => strptime_Ymd s
  | _ => Raise TypeError
  end.

(** The two formats in the words of the specification.  The strict one
    is YYYY-MM-DD: ten characters, digits but for the two hyphens. *)
Definition strict_Ymd (s : list ascii) : bool :=
  match s with
  | [y1; y2; y3; y4; h1; m1; m2; h2; d1; d2] =>
      forallb is_digit [y1; y2; y3; y4; m1; m2; d1; d2]
      && Ascii.eqb h1 "-" && Ascii.eqb h2 "-"
  | _ => false
  end.

(** The number a run of digits writes. *)
Definition digits_value (t : list ascii) : Z :=
  fold_left (fun acc c => 10 * acc + (code c - 48)) t 0.

Definition is_number (t : list ascii) (n : Z) : Prop :=
  forallb is_digit t = true /\ digits_value t = n.

(** The format [strptime] reads: a year of four digits, a month and a
    day of one or two digits (the day may have a space for its first
    digit), hyphens between them, making a date of the calendar. *)
Definition date_text (s : list ascii) (dt : datetime) : Prop :=
  exists ys ms ds,
    s = ys ++ "-"%char :: ms ++ "-"%char :: ds
    /\ length ys = 4%nat /\ is_number ys (year dt)
    /\ (1 <= length ms <= 2)%nat /\ is_number ms (month dt)
    /\ (((1 <= length ds <= 2)%nat /\ is_number ds (day dt))
        \/ (exists c, ds = [" "%char; c] /\ is_number [c] (day dt)))
    /\ valid_date (year dt) (month dt) (day dt) = true.

(** ** pystac *)

(** What depends on the release of pystac and on the process, and on
    nothing this program controls: the STAC version it writes, the
    licence it gives a collection that names none, and the [links] of a
    collection that was just built.
    - [root_links id title catalog_type] are the links of a collection
      built without an [href];
    - [self_href href] is what the constructor makes of an [href] that
      is not [None], the target of the self link, or the exception it
      raises for an [href] that is no path;
    - [href_links id title target catalog_type] are the links of a
      collection built with an [href], as [to_dict] writes them (they
      depend on the working directory too). *)
Record pystac_release := {
  stac_version : string;
  default_license : string;
  root_links : string -> value -> value -> value;
  self_href : value -> result value;
  href_links : string -> value -> value -> value -> result value
}.

(** [pystac.SpatialExtent(bboxes)]: a list that starts with a float is
    taken for one bounding box and wrapped. *)
Definition SpatialExtent (bboxes : list value) : value :=
  match bboxes with
  | VFloat _ :: _ => VList [VList bboxes]
  | _ => VList bboxes
  end.

(** [pystac.TemporalExtent(intervals)], on a list of [start, end] pairs. *)
Definition TemporalExtent (intervals : list (option datetime * option datetime))
    : list (option datetime * option datetime) := intervals.

Definition Extent (spatial : value)
    (temporal : list (option datetime * option datetime)) : value :=
  VExtent spatial temporal.

(** [pystac.Summaries(summaries)], on summaries that are lists. *)
Definition Summaries (summaries : gmap string (list value)) : value :=
  VSummaries summaries.

Fixpoint zeros (n : nat) : string :=
  match n with
  | O => ""
  | S n' => "0" +:+ zeros n'
  end.

(** [%0<width>d] *)
Definition zero_pad (width : nat) (z : Z) : string :=
  zeros (width - String.length (pretty z)) +:+ pretty z.

(** [pystac.utils.datetime_to_str]: a datetime without a time zone is
    taken as UTC and written in ISO 8601 with a [Z]. *)
Definition datetime_to_str (dt : datetime) : string :=
  zero_pad 4 (year dt) +:+ "-" +:+ zero_pad 2 (month dt) +:+ "-"
  +:+ zero_pad 2 (day dt) +:+ "T00:00:00Z".

Definition bound_to_dict (b : option datetime) : value :=
  match b with
  | Some dt => VStr (datetime_to_str dt)
  | None => VNone
  end.

Definition interval_to_dict (i : option datetime * option datetime) : value :=
  VList [bound_to_dict (fst i); bound_to_dict (snd i)].

(** [Extent.to_dict()] *)
Definition Extent_to_dict (bboxes : value)
    (intervals : list (option datetime * option datetime)) : value :=
  VDict {[ "spatial" := VDict {[ "bbox" := bboxes ]};
           "temporal" :=
             VDict {[ "interval" := VList (map interval_to_dict intervals) ]} ]}.

(** [Summaries.to_dict()] *)
Definition Summaries_to_dict (lists : gmap string (list value)) : value :=
  VDict (VList <$> lists).

(** [v.to_dict()]: of the values of this model, the two pystac objects
    have the method. *)
Definition to_dict (v : value) : result value :=
  match v with
  | VExtent bboxes intervals => Ok (Extent_to_dict bboxes intervals)
  | VSummaries lists => Ok (Summaries_to_dict lists)
  | _ => Raise AttributeError
  end.

(** [v.is_empty()], a method of [Summaries]: no summary under a key that
    counts as true. *)
Definition is_empty (v : value) : result bool :=
  match v with
  | VSummaries lists => Ok (bool_decide (dom lists ⊆ {[ "" ]}))
  | _ => Raise AttributeError
  end.

(** The keyword parameters of [pystac.Collection]. *)
Definition Collection_parameters : list string :=
  ["id"; "description"; "extent"; "title"; "stac_extensions"; "href";
   "extra_fields"; "catalog_type"; "license"; "keywords"; "providers";
   "summaries"; "assets"].

(** Those that a plain collection leaves at [None]: extensions, links,
    further fields, providers and assets. *)
Definition Collection_object_parameters : list string :=
  ["stac_extensions"; "href"; "extra_fields"; "catalog_type"; "providers";
   "assets"].

(** The attributes of a collection that [to_dict] reads.  [c_self_href]
    is the target of the self link, if the collection was given an
    [href].  The assets are not kept: the dictionary of assets is empty
    whenever the constructor returns (see [add_assets]). *)
Record Collection := {
  c_id : string;
  c_description : value;
  c_extent : value;
  c_title : value;
  c_stac_extensions : value;
  c_extra_fields : value;
  c_self_href : option value;
  c_catalog_type : value;
  c_license : value;
  c_keywords : value;
  c_providers : value;
  c_summaries : value
}.

Definition is_none (v : value) : bool :=
  match v with
  | VNone => true
  | _ => false
  end.

Definition given (kwargs : gmap string value) (k : string) : bool :=
  match kwargs !! k with
  | Some v => negb (is_none v)
  | None => false
  end.

(** [x or y] *)
Definition or_else (x y : value) : value := if truthy x then x else y.

(** [for k, asset in assets.items(): self.add_asset(k, asset)], run
    when [assets] is not [None].  Of the values of this model only a
    dictionary has [items], and none has the [set_owner] that
    [add_asset] calls on each asset. *)
Definition add_assets (assets : value) : result unit :=
  match assets with
  | VNone => Ok tt
  | VDict m => if bool_decide (m = ∅) then Ok tt else Raise AttributeError
  | _ => Raise AttributeError
  end.

(** [l[x]] for a list [l]: does it raise, and what? *)
Definition list_index_check (l : list value) (x : value) : result unit :=
  let at_index (i : Z) : result unit :=
    if (- Z.of_nat (length l) <=? i) && (i <? Z.of_nat (length l)) then Ok tt
    else Raise IndexError in
  match x with
  | VInt i => at_index i
  | VBool b => at_index (if b then 1 else 0)
  | _ => Raise TypeError
  end.

Fixpoint list_index_checks (l keys : list value) : result unit :=
  match keys with
  | [] => Ok tt
  | x :: keys' => rbind (list_index_check l x) (fun _ => list_index_checks l keys')
  end.

(** [for key in extra: d[key] = extra[key]].  A dictionary gives its
    entries to [d].  A string or a list that is not empty is indexed by
    its own elements: that raises, unless they are all indices of the
    list, and then [d] gets keys that are integers, which a document of
    this model cannot hold. *)
Definition update_from (extra : value) (d : gmap string value)
    : result (gmap string value) :=
  match extra with
  | VDict m => Ok (m ∪ d)
  | VStr s => if String.eqb s "" then Ok d else Raise TypeError
  | VList [] => Ok d
  | VList l =>
      rbind (list_index_checks l l) (fun _ =>
      Raise (NotModelled "a document with a key that is no string"))
  | _ => Raise TypeError
  end.

Fixpoint to_dict_each (l : list value) : result (list value) :=
  match l with
  | [] => Ok []
  | x :: l' =>
      rbind (to_dict x) (fun d =>
      rbind (to_dict_each l') (fun ds => Ok (d :: ds)))
  end.

(** [list(map(lambda x: x.to_dict(), providers))], run when [providers]
    counts as true.  The characters of a string and the keys of a
    dictionary are strings, which have no [to_dict]. *)
Definition providers_to_dict (providers : value) : result value :=
  match providers with
  | VList l => rbind (to_dict_each l) (fun ds => Ok (VList ds))
  | VStr _ | VDict _ => Raise AttributeError
  | _ => Raise TypeError
  end.

Section Pystac.

Variable release : pystac_release.

(** [pystac.Collection(id=id, **kwargs)].  Binding the arguments raises
    [TypeError] when [kwargs] names [id] again, names no parameter, or
    lacks a required one.  The body stores the arguments; it looks into
    two of them, the [href] and the [assets]. *)
Definition Collection_init (id : string) (kwargs : gmap string value)
    : result Collection :=
  if bool_decide ("id" ∈ dom kwargs) then Raise TypeError
  else if negb (bool_decide (dom kwargs ⊆ list_to_set Collection_parameters))
  then Raise TypeError
  else
    match kwargs !! "description", kwargs !! "extent" with
    | Some description, Some extent =>
        let arg (k : string) : value := default VNone (kwargs !! k) in
        rbind (match arg "href" with
               | VNone => Ok None
               | href => rbind (self_href release href) (fun target => Ok (Some target))
               end) (fun target =>
        rbind (add_assets (arg "assets")) (fun _ =>
        Ok {| c_id := id;
              c_description := description;
              c_extent := extent;
              c_title := arg "title";
              c_stac_extensions := or_else (arg "stac_extensions") (VList []);
              c_extra_fields :=
                (if is_none (arg "extra_fields") then VDict ∅ else arg "extra_fields");
              c_self_href := target;
              c_catalog_type := arg "catalog_type";
              c_license :=
                default (VStr (default_license release)) (kwargs !! "license");
              c_keywords := arg "keywords";
              c_providers := arg "providers";
              c_summaries := or_else (arg "summaries") (Summaries ∅) |}))
    | _, _ => Raise TypeError
    end.

Definition set_if (cond : bool) (k : string) (v : value)
    (d : gmap string value) : gmap string value :=
  if cond then <[ k := v ]> d else d.

(** [Collection.to_dict()]: the members of a catalog, then those of a
    collection, each assignment in the order of the library. *)
Definition Collection_to_dict (c : Collection) : result value :=
  rbind (match c_self_href c with
         | None => Ok (root_links release (c_id c) (c_title c) (c_catalog_type c))
         | Some target =>
             href_links release (c_id c) (c_title c) target (c_catalog_type c)
         end) (fun links =>
  let d : gmap string value :=
    {[ "type" := VStr "Collection";
       "id" := VStr (c_id c);
       "stac_version" := VStr (stac_version release);
       "description" := c_description c;
       "links" := links ]} in
  let d := set_if (truthy (c_stac_extensions c)) "stac_extensions"
             (c_stac_extensions c) d in
  rbind (update_from (c_extra_fields c) d) (fun d =>
  let d := set_if (negb (is_none (c_title c))) "title" (c_title c) d in
  rbind (to_dict (c_extent c)) (fun extent =>
  let d := <[ "extent" := extent ]> d in
  let d := <[ "license" := c_license c ]> d in
  let d := set_if (truthy (c_stac_extensions c)) "stac_extensions"
             (c_stac_extensions c) d in
  let d := set_if (truthy (c_keywords c)) "keywords" (c_keywords c) d in
  rbind (if truthy (c_providers c)
         then rbind (providers_to_dict (c_providers c)) (fun providers =>
              Ok (<[ "providers" := providers ]> d))
         else Ok d) (fun d =>
  rbind (is_empty (c_summaries c)) (fun empty =>
  if empty then Ok (VDict d)
  else
    rbind (to_dict (c_summaries c)) (fun summaries =>
    Ok (VDict (<[ "summaries" := summaries ]> d)))))))).

End Pystac.

(** ** create_stac_collection *)

(** The builder works on the caller's mapping in place: its steps go
    from the mapping as it is to a result and the mapping as they leave
    it. *)
Definition st (A : Type) := gmap string value -> result A * gmap string value.

#[global] Instance st_ret : MRet st := fun A a m => (Ok a, m).

#[global] Instance st_bind : MBind st := fun A B k c m =>
  match c m with
  | (Ok a, m') => k a m'
  | (Raise e, m') => (Raise e, m')
  end.

Definition st_lift {A} (r : result A) : st A := fun m => (r, m).

(** [collection_info.pop(key)] *)
Definition dict_pop (key : string) : st value :=
  fun m =>
    match m !! key with
    | Some v => (Ok v, delete key m)
    | None => (Raise (KeyError (VStr key)), m)
    end.

(** [collection_info[key] = v] *)
Definition dict_setitem (key : string) (v : value) : st unit :=
  fun m => (Ok tt, <[ key := v ]> m).

(** [**collection_info] *)
Definition dict_items : st (gmap string value) := fun m => (Ok m, m).

Definition string_getitem (s : string) (i : nat) : result value :=
  match String.get i s with
  | Some c => Ok (VStr (String c EmptyString))
  | None => Raise IndexError
  end.

(** [v[i]] for a literal index [i] that is not negative. *)
Definition getitem (v : value) (i : nat) : result value :=
  match v with
  | VList l =>
      match l !! i with
      | Some x => Ok x
      | None => Raise IndexError
      end
  | VStr s => string_getitem s i
  | VDict _ => Raise (KeyError (VInt (Z.of_nat i)))
  | _ => Raise TypeError
  end.

(** [datetime.strptime(tmp[i], "%Y-%m-%d") if tmp[i] is not None else None] *)
Definition temporal_bound (tmp : value) (i : nat) : result (option datetime) :=
  rbind (getitem tmp i) (fun b =>
  if is_none b then Ok None
  else
    rbind (getitem tmp i) (fun b' =>
    rbind (datetime_strptime b') (fun dt =>
    Ok (Some dt)))).

Section Builder.

Variable release : pystac_release.

Definition create_stac_collection (collection_id : string) : st value :=
  sp ← dict_pop "spatialextent";
  let sp_extent := SpatialExtent [sp] in
  tmp ← dict_pop "temporalextent";
  start ← st_lift (temporal_bound tmp 0);
  stop ← st_lift (temporal_bound tmp 1);
  let tmp_extent := TemporalExtent [(start, stop)] in
  dict_setitem "extent" (Extent sp_extent tmp_extent);;
  dict_setitem "summaries"
    (Summaries {[ "needs_summaries_update" := [VStr "true"] ]});;
  collection_info ← dict_items;
  collection ← st_lift (Collection_init release collection_id collection_info);
  st_lift (Collection_to_dict release collection).

End Builder.

(** The mapping as the builder leaves it when both bounds are read. *)
Definition placeholder_summaries : value :=
  Summaries {[ "needs_summaries_update" := [VStr "true"] ]}.

Definition built_info (m : gmap string value) (sp : value)
    (start stop : option datetime) : gmap string value :=
  <[ "summaries" := placeholder_summaries ]>
    (<[ "extent" := Extent (SpatialExtent [sp]) (TemporalExtent [(start, stop)]) ]>
       (delete "temporalextent" (delete "spatialextent" m))).

(** A descriptor of a plain collection: it has a description, no [id]
    of its own, no key but the two extents and the parameters of
    [pystac.Collection], and it leaves at [None] (or leaves out) the
    parameters [stac_extensions], [href], [extra_fields],
    [catalog_type], [providers] and [assets]. *)
Definition well_formed_descriptor (m : gmap string value) : bool :=
  bool_decide (is_Some (m !! "description"))
  && bool_decide ("id" ∉ dom m)
  && bool_decide
       (dom m ⊆ list_to_set ("spatialextent" :: "temporalextent" :: Collection_parameters))
  && forallb (fun k => negb (given m k)) Collection_object_parameters.

Definition null_or_str (v : value) : bool :=
  match v with
  | VNone | VStr _ => true
  | _ => false
  end.

(** The [extent] member of a document. *)
Definition extent_document (bboxes : value) (start stop : value) : value :=
  VDict {[ "spatial" := VDict {[ "bbox" := bboxes ]};
           "temporal" := VDict {[ "interval" := VList [VList [start; stop]] ]} ]}.

(** The requests the three functions make. *)
Definition get_request (url : string) (verify : bool) : request :=
  {| method := GET; url := url; json := None; verify := verify |}.

Definition post_request (stac_host : string) (json_data : gmap string value) : request :=
  {| method := POST; url := join stac_host ["collections"];
     json := Some (VDict json_data); verify := false |}.

Definition put_request (stac_host : string) (json_data : gmap string value) : request :=
  {| method := PUT; url := join stac_host ["collections"];
     json := Some (VDict json_data); verify := false |}.

(** ** Concrete surroundings for the examples *)

Definition no_str : value -> string := fun _ => "?".

(** A server that answers the n-th request with the n-th reply of a
    script, and refuses the connection once the script is over. *)
Definition scripted (replies : list reply) : network :=
  fun history _ => nth (length history) replies (Fails ConnectionError).

Definition some_release : pystac_release :=
  {| stac_version := "1.0.0";
     default_license := "proprietary";
     root_links := fun _ _ _ => VList [];
     self_href := fun href => Ok href;
     href_links := fun _ _ _ _ => Ok (VList []) |}.

(** A URL with a line feed after it. *)
Definition localhost_newline : str := codepoints "http://localhost" ++ [newline].

Definition example_descriptor : gmap string value :=
  {[ "spatialextent" := VList [VInt (-180); VInt (-90); VInt 180; VInt 90];
     "temporalextent" := VList [VStr "2000-01-01"; VStr "2020-12-31"];
     "description" := VStr "d";
     "title" := VStr "t" ]}.

(** ** Definitions for the further properties *)

(** *** post_stac_item

    The body is [pass]: the function does nothing and returns [None]. *)
Definition post_stac_item (stac_host collection_id : string)
    (data : gmap string value) : io value :=
  mret VNone.

(** A string with its ASCII letters in lower case, and in upper case. *)
Definition to_lower (c : codepoint) : codepoint :=
  if between (ord "A") (ord "Z") c then (c + 32)%N else c.

Definition to_upper (c : codepoint) : codepoint :=
  if between (ord "a") (ord "z") c then (c - 32)%N else c.

Definition lowercase (s : str) : str := map to_lower s.
Definition uppercase (s : str) : str := map to_upper s.

(** The ten digits, and the texts of two and of four characters. *)
Definition digit_chars : list ascii :=
  ["0"; "1"; "2"; "3"; "4"; "5"; "6"; "7"; "8"; "9"]%char.

Definition text2 (a b : ascii) : string := String a (String b EmptyString).
Definition text4 (a b c d : ascii) : string :=
  String a (String b (String c (String d EmptyString))).

(* ================================================================= *)
(** * Part II: properties                                             *)
(* ================================================================= *)

(** ** Regular expressions: the matcher decides the language *)

Section Regex.

Variable icase : bool.

Lemma matches_void (s : str) : matches icase Void s <-> False.
Proof. split; [intros H; inversion H | tauto]. Qed.

Lemma matches_eps (s : str) : matches icase Eps s <-> s = [].
Proof. split; [intros H; now inversion H | intros ->; constructor]. Qed.

Lemma matches_sym (cs : list cset) (s : str) :
  matches icase (Sym cs) s <-> exists c, s = [c] /\ sym_mem icase cs c = true.
Proof.
  split.
  - intros H. inversion H; subst. eauto.
  - intros (c & -> & H). now constructor.
Qed.

Lemma matches_cat (r1 r2 : regex) (s : str) :
  matches icase (Cat r1 r2) s <->
  exists u v, s = u ++ v /\ matches icase r1 u /\ matches icase r2 v.
Proof.
  split.
  - intros H. inversion H; subst. eauto.
  - intros (u & v & -> & H1 & H2). now constructor.
Qed.

Lemma matches_alt (r1 r2 : regex) (s : str) :
  matches icase (Alt r1 r2) s <-> matches icase r1 s \/ matches icase r2 s.
Proof.
  split.
  - intros H. inversion H; subst; tauto.
  - intros [H | H]; [now apply M_alt_l | now apply M_alt_r].
Qed.

Lemma matches_opt (r : regex) (s : str) :
  matches icase (Opt r) s <-> matches icase r s \/ s = [].
Proof. unfold Opt. now rewrite matches_alt, matches_eps. Qed.

(** A match of [Star r] that starts with a character starts with a match
    of [r] that does. *)
Lemma matches_star_cons (r : regex) (c : codepoint) (s : str) :
  matches icase (Star r) (c :: s) <->
  exists u v, s = u ++ v /\ matches icase r (c :: u) /\ matches icase (Star r) v.
Proof.
  split.
  - intros H. remember (Star r) as r' eqn:Er. remember (c :: s) as s' eqn:Es.
    revert Er Es. induction H as [| | | | | |r0 u v Hu _ Hv IHv]; try discriminate.
    intros Er Es. injection Er as ->.
    destruct u as [|c' u].
    + apply IHv; [reflexivity | exact Es].
    + injection Es as -> <-. eauto.
  - intros (u & v & -> & Hu & Hv).
    change (c :: u ++ v) with ((c :: u) ++ v). now constructor.
Qed.

Lemma nullable_spec (r : regex) : nullable r = true <-> matches icase r [].
Proof.
  induction r as [| |cs|r1 IH1 r2 IH2|r1 IH1 r2 IH2|r IH]; simpl.
  - rewrite matches_void. split; [discriminate | tauto].
  - rewrite matches_eps. tauto.
  - rewrite matches_sym. split; [discriminate | intros (c & H & _); discriminate].
  - rewrite andb_true_iff, IH1, IH2, matches_cat. split.
    + intros [H1 H2]. now exists [], [].
    + intros (u & v & E & H1 & H2). symmetry in E.
      apply app_eq_nil in E as [-> ->]. tauto.
  - rewrite orb_true_iff, IH1, IH2, matches_alt. tauto.
  - split; [constructor | reflexivity].
Qed.

Lemma mkCat_spec (r1 r2 : regex) (s : str) :
  matches icase (mkCat r1 r2) s <-> matches icase (Cat r1 r2) s.
Proof.
  rewrite matches_cat.
  assert (HV1 : forall r, (exists u v, s = u ++ v /\ matches icase Void u /\ matches icase r v)
                          <-> False).
  { intros r. split; [| tauto]. intros (u & v & _ & H & _). now apply matches_void in H. }
  assert (HV2 : forall r, (exists u v, s = u ++ v /\ matches icase r u /\ matches icase Void v)
                          <-> False).
  { intros r. split; [| tauto]. intros (u & v & _ & _ & H). now apply matches_void in H. }
  assert (HE : forall r, (exists u v, s = u ++ v /\ matches icase Eps u /\ matches icase r v)
                         <-> matches icase r s).
  { intros r. split.
    - intros (u & v & -> & H & H'). now apply matches_eps in H as ->.
    - intros H. exists [], s. repeat split; [constructor | exact H]. }
  destruct r1; destruct r2; simpl;
    rewrite ?HV1, ?HV2, ?HE, ?matches_void, ?matches_cat; tauto.
Qed.

Lemma mkAlt_spec (r1 r2 : regex) (s : str) :
  matches icase (mkAlt r1 r2) s <-> matches icase (Alt r1 r2) s.
Proof.
  rewrite matches_alt.
  destruct r1; destruct r2; simpl; rewrite ?matches_alt, ?matches_void; tauto.
Qed.

Lemma deriv_spec (c : codepoint) (r : regex) (s : str) :
  matches icase (deriv icase c r) s <-> matches icase r (c :: s).
Proof.
  revert s. induction r as [| |cs|r1 IH1 r2 IH2|r1 IH1 r2 IH2|r IH]; intros s; simpl.
  - now rewrite !matches_void.
  - rewrite matches_void, matches_eps. split; [tauto | discriminate].
  - rewrite matches_sym. destruct (sym_mem icase cs c) eqn:E.
    + rewrite matches_eps. split.
      * intros ->. eauto.
      * intros (c' & H & _). now injection H.
    + rewrite matches_void. split; [tauto |].
      intros (c' & H & H'). injection H as <- ->. congruence.
  - rewrite mkAlt_spec, matches_alt, mkCat_spec, !matches_cat. split.
    + intros [(u & v & -> & H1 & H2) | H].
      * apply IH1 in H1. exists (c :: u), v. auto.
      * destruct (nullable r1) eqn:N; [| now apply matches_void in H].
        apply nullable_spec in N. apply IH2 in H. exists [], (c :: s). auto.
    + intros (u & v & E & H1 & H2). destruct u as [|c' u].
      * right. simpl in E. subst v.
        apply nullable_spec in H1. rewrite H1. now apply IH2.
      * left. injection E as <- ->. apply IH1 in H1. eauto.
  - rewrite mkAlt_spec, !matches_alt, IH1, IH2. tauto.
  - rewrite mkCat_spec, matches_cat, matches_star_cons.
    split; intros (u & v & E & H1 & H2); exists u, v; (split; [exact E |]);
      (split; [now apply IH | exact H2]).
Qed.

Lemma fullmatch_spec (r : regex) (s : str) :
  fullmatch icase r s = true <-> matches icase r s.
Proof.
  revert r. induction s as [|c s IH]; intros r; simpl.
  - apply nullable_spec.
  - now rewrite IH, deriv_spec.
Qed.

End Regex.

(** ** Code points *)

(** What holds of every code point below a bound, by evaluation. *)
Lemma forallb_below (P : codepoint -> bool) (bound : codepoint) :
  forallb P (map N.of_nat (seq 0 (N.to_nat bound))) = true ->
  forall c, (c < bound)%N -> P c = true.
Proof.
  intros H c Hc. rewrite forallb_forall in H. apply H.
  apply in_map_iff. exists (N.to_nat c). split; [apply N2Nat.id |].
  apply in_seq. lia.
Qed.

Lemma between_spec (lo hi c : codepoint) :
  between lo hi c = true <-> (lo <= c <= hi)%N.
Proof. unfold between. rewrite andb_true_iff, N.leb_le, N.leb_le. tauto. Qed.

Lemma between_above (lo hi c : codepoint) : (hi < c)%N -> between lo hi c = false.
Proof.
  intros H. unfold between. apply andb_false_iff. right. apply N.leb_gt. exact H.
Qed.

(** Past the last entry of a table nothing is in it. *)
Lemma in_table_above (table : list (codepoint * codepoint)) (bound c : codepoint) :
  forallb (fun r => N.ltb (snd r) bound) table = true ->
  (bound <= c)%N -> in_table table c = false.
Proof.
  intros Ht Hc. unfold in_table. induction table as [|r table IH]; [reflexivity |].
  simpl in Ht. apply andb_true_iff in Ht as [Hr Ht]. apply N.ltb_lt in Hr.
  simpl. rewrite between_above by lia. now apply IH.
Qed.

Lemma is_space_above (c : codepoint) : (0x3001 <= c)%N -> is_space c = false.
Proof. apply in_table_above. vm_compute. reflexivity. Qed.

(** The characters that [fold_case] moves are below U+2200. *)
Lemma fold_case_above (c : codepoint) : (0x2200 <= c)%N -> fold_case c = c.
Proof.
  intros H. unfold fold_case.
  rewrite between_above by (vm_compute (ord "Z"); lia).
  repeat match goal with
  | |- context [N.eqb c ?k] =>
      replace (N.eqb c k) with false by (symmetry; apply N.eqb_neq; lia)
  end.
  reflexivity.
Qed.

(** A statement about one code point that mentions characters below
    U+2200 only: by evaluation below the bound, and above it, where
    [fold_case] is the identity, by the lemma given. *)
Lemma by_bound (P : codepoint -> bool) :
  forallb P (map N.of_nat (seq 0 (N.to_nat 0x2200))) = true ->
  (forall c, (0x2200 <= c)%N -> P c = true) ->
  forall c, P c = true.
Proof.
  intros Hlow Hhigh c. destruct (N.ltb_spec c 0x2200) as [H | H].
  - apply (forallb_below P 0x2200 Hlow). exact H.
  - now apply Hhigh.
Qed.

Lemma is_letter_above (c : codepoint) : (0x2200 <= c)%N -> is_letter c = false.
Proof.
  intros H. unfold is_letter. rewrite fold_case_above by exact H.
  apply between_above. vm_compute (ord "z"). lia.
Qed.

(** [fold_case] moves letters only. *)
Lemma letter_or_fixed (c : codepoint) :
  (is_letter c || N.eqb (fold_case c) c) = true.
Proof.
  revert c. apply by_bound.
  - vm_compute. reflexivity.
  - intros c H. rewrite (fold_case_above c H), N.eqb_refl. apply orb_true_r.
Qed.

(** A character that is no letter is a case of itself only. *)
Lemma fold_case_no_letter (x c : codepoint) :
  is_letter x = false -> N.eqb (fold_case c) x = N.eqb c x.
Proof.
  intros Hx.
  assert (Hxx : fold_case x = x).
  { pose proof (letter_or_fixed x) as G. rewrite Hx in G. now apply N.eqb_eq. }
  assert (Hc : fold_case c = c \/ is_letter c = true).
  { pose proof (letter_or_fixed c) as G.
    destruct (is_letter c); [now right | left; now apply N.eqb_eq]. }
  destruct Hc as [-> | Hc]; [reflexivity |].
  destruct (N.eqb_spec (fold_case c) x) as [E | E].
  - exfalso. unfold is_letter in Hx, Hc. rewrite Hxx, <- E in Hx. congruence.
  - symmetry. apply N.eqb_neq. intros ->. congruence.
Qed.

Lemma fold_case_fixes_no_letter (x : codepoint) : is_letter x = false -> fold_case x = x.
Proof.
  intros Hx. apply N.eqb_eq. rewrite (fold_case_no_letter x x Hx). apply N.eqb_refl.
Qed.

(** ** The sets of the URL pattern, without regard to case *)

(** The cases of the letters from A to Z are those of a to z. *)
Lemma range_AZ (y : codepoint) :
  existsb (fun x => N.eqb y (fold_case x)) (range (ord "A") (ord "Z"))
  = between (ord "a") (ord "z") y.
Proof.
  destruct (N.ltb_spec y 128) as [H | H].
  - apply Bool.eqb_prop. revert y H.
    apply (forallb_below
             (fun y => Bool.eqb
                (existsb (fun x => N.eqb y (fold_case x)) (range (ord "A") (ord "Z")))
                (between (ord "a") (ord "z") y)) 128).
    vm_compute. reflexivity.
  - rewrite between_above by (vm_compute (ord "z"); lia).
    assert (G : forallb (fun x => N.ltb (fold_case x) 128) (range (ord "A") (ord "Z")) = true)
      by (vm_compute; reflexivity).
    induction (range (ord "A") (ord "Z")) as [|x l IH]; [reflexivity |].
    simpl in G. apply andb_true_iff in G as [Gx G]. apply N.ltb_lt in Gx.
    simpl. rewrite IH by exact G.
    replace (N.eqb y (fold_case x)) with false; [reflexivity |].
    symmetry. apply N.eqb_neq. lia.
Qed.

Lemma sym_AZ (c : codepoint) : sym_mem true AZ c = is_letter c.
Proof.
  unfold sym_mem, AZ, is_letter. cbn [existsb cset_mem_ignorecase].
  now rewrite range_AZ, orb_false_r.
Qed.

Lemma sym_AZd (c : codepoint) : sym_mem true AZd c = is_alnum c.
Proof.
  unfold sym_mem, AZd, is_alnum, is_letter. cbn [existsb cset_mem_ignorecase].
  now rewrite range_AZ, orb_false_r.
Qed.

Lemma sym_AZd_hyphen (c : codepoint) : sym_mem true AZd_hyphen c = is_alnum_hyphen c.
Proof.
  unfold sym_mem, AZd_hyphen, is_alnum_hyphen, is_alnum, is_letter.
  cbn [existsb cset_mem_ignorecase].
  rewrite range_AZ, orb_false_r, (fold_case_fixes_no_letter (ord "-")) by reflexivity.
  rewrite fold_case_no_letter by reflexivity.
  now rewrite orb_assoc.
Qed.

Lemma sym_digit (c : codepoint) : sym_mem true [CDigit] c = is_decimal c.
Proof. unfold sym_mem. cbn [existsb cset_mem_ignorecase]. apply orb_false_r. Qed.

Lemma sym_non_space (c : codepoint) : sym_mem true [CNonSpace] c = non_space c.
Proof. unfold sym_mem. cbn [existsb cset_mem_ignorecase]. apply orb_false_r. Qed.

Lemma sym_slash_or_question (c : codepoint) :
  sym_mem true [CChar (ord "/"); CChar (ord "?")] c
  = N.eqb c (ord "/") || N.eqb c (ord "?").
Proof.
  unfold sym_mem. cbn [existsb cset_mem_ignorecase].
  rewrite (fold_case_fixes_no_letter (ord "/")), (fold_case_fixes_no_letter (ord "?"))
    by reflexivity.
  rewrite !fold_case_no_letter by reflexivity.
  now rewrite orb_false_r.
Qed.

(** A literal that is its own [fold_case] takes the characters that are
    cases of it. *)
Lemma sym_lit (x c : codepoint) :
  fold_case x = x ->
  sym_mem true [CChar x] c = N.eqb (fold_case c) x.
Proof.
  intros Hx. unfold sym_mem. cbn [existsb cset_mem_ignorecase].
  now rewrite Hx, orb_false_r.
Qed.

Lemma lower_fixes (x c : codepoint) : is_letter x = false -> fold_case c = x -> c = x.
Proof.
  intros Hx E. apply N.eqb_eq. rewrite <- (fold_case_no_letter x c Hx).
  now apply N.eqb_eq.
Qed.

(** ** Languages of repeated sets and of literals *)

Section Repeats.

Variable icase : bool.
Variable cs : list cset.

Lemma matches_star_sym (s : str) :
  matches icase (Star (Sym cs)) s <-> forallb (sym_mem icase cs) s = true.
Proof.
  induction s as [|c s IH]; simpl.
  - split; [reflexivity | constructor].
  - rewrite matches_star_cons, andb_true_iff, <- IH. split.
    + intros (u & v & -> & H1 & H2). apply matches_sym in H1 as (c' & E & H1).
      injection E as <- ->. tauto.
    + intros [H1 H2]. exists [], s. repeat split; [now constructor | exact H2].
Qed.

Lemma matches_sym_cons (r : regex) (s : str) :
  matches icase (Cat (Sym cs) r) s <->
  exists c s', s = c :: s' /\ sym_mem icase cs c = true /\ matches icase r s'.
Proof.
  rewrite matches_cat. split.
  - intros (u & v & -> & H1 & H2). apply matches_sym in H1 as (c & -> & H1).
    now exists c, v.
  - intros (c & s' & -> & H1 & H2). exists [c], s'.
    repeat split; [now constructor | exact H2].
Qed.

Lemma matches_times_sym (n : nat) (s : str) :
  matches icase (Times n (Sym cs)) s <->
  length s = n /\ forallb (sym_mem icase cs) s = true.
Proof.
  revert s. induction n as [|n IH]; intros s; simpl.
  - rewrite matches_eps. split.
    + now intros ->.
    + intros [H _]. now destruct s.
  - rewrite matches_sym_cons. split.
    + intros (c & s' & -> & H1 & H2). apply IH in H2 as [<- H2]. simpl.
      now rewrite H1, H2.
    + intros [L H]. destruct s as [|c s']; [discriminate |].
      simpl in *. apply andb_true_iff in H as [H1 H2].
      exists c, s'. repeat split; [exact H1 |]. apply IH. split; [lia | exact H2].
Qed.

Lemma matches_upto_sym (n : nat) (s : str) :
  matches icase (UpTo n (Sym cs)) s <->
  (length s <= n)%nat /\ forallb (sym_mem icase cs) s = true.
Proof.
  revert s. induction n as [|n IH]; intros s; simpl.
  - rewrite matches_eps. split.
    + intros ->. simpl. split; [lia | reflexivity].
    + intros [H _]. destruct s; [reflexivity | simpl in H; lia].
  - rewrite matches_opt, matches_sym_cons. split.
    + intros [(c & s' & -> & H1 & H2) | ->].
      * apply IH in H2 as [L H2]. simpl. rewrite H1, H2. split; [lia | reflexivity].
      * simpl. split; [lia | reflexivity].
    + intros [L H]. destruct s as [|c s']; [now right | left].
      simpl in *. apply andb_true_iff in H as [H1 H2].
      exists c, s'. repeat split; [exact H1 |]. apply IH. split; [lia | exact H2].
Qed.

Lemma forallb_app_true (p : codepoint -> bool) (u v : str) :
  forallb p (u ++ v) = true <-> forallb p u = true /\ forallb p v = true.
Proof. rewrite forallb_app. apply andb_true_iff. Qed.

Lemma matches_rep_sym (m n : nat) (s : str) :
  (m <= n)%nat ->
  matches icase (Rep m n (Sym cs)) s <->
  (m <= length s <= n)%nat /\ forallb (sym_mem icase cs) s = true.
Proof.
  intros Hmn. unfold Rep. rewrite matches_cat. split.
  - intros (u & v & -> & H1 & H2).
    apply matches_times_sym in H1 as [L1 H1]. apply matches_upto_sym in H2 as [L2 H2].
    rewrite length_app, forallb_app_true. split; [lia | tauto].
  - intros [L H]. exists (firstn m s), (skipn m s).
    rewrite <- (firstn_skipn m s) in H. apply forallb_app_true in H as [H1 H2].
    split; [now rewrite firstn_skipn |]. split.
    + apply matches_times_sym. split; [| exact H1]. rewrite length_firstn. lia.
    + apply matches_upto_sym. split; [| exact H2]. rewrite length_skipn. lia.
Qed.

Lemma matches_repmin_sym (m : nat) (s : str) :
  matches icase (RepMin m (Sym cs)) s <->
  (m <= length s)%nat /\ forallb (sym_mem icase cs) s = true.
Proof.
  unfold RepMin. rewrite matches_cat. split.
  - intros (u & v & -> & H1 & H2).
    apply matches_times_sym in H1 as [L1 H1]. apply matches_star_sym in H2.
    rewrite length_app, forallb_app_true. split; [lia | tauto].
  - intros [L H]. exists (firstn m s), (skipn m s).
    rewrite <- (firstn_skipn m s) in H. apply forallb_app_true in H as [H1 H2].
    split; [now rewrite firstn_skipn |]. split.
    + apply matches_times_sym. split; [| exact H1]. rewrite length_firstn. lia.
    + now apply matches_star_sym.
Qed.

Lemma matches_plus_sym (s : str) :
  matches icase (Plus (Sym cs)) s <->
  s <> [] /\ forallb (sym_mem icase cs) s = true.
Proof.
  unfold Plus. rewrite matches_sym_cons. split.
  - intros (c & s' & -> & H1 & H2). apply matches_star_sym in H2.
    simpl. rewrite H1, H2. split; [discriminate | reflexivity].
  - intros [Hne H]. destruct s as [|c s']; [contradiction |].
    simpl in H. apply andb_true_iff in H as [H1 H2].
    exists c, s'. repeat split; [exact H1 | now apply matches_star_sym].
Qed.

End Repeats.

Lemma matches_star_concat (icase : bool) (r : regex) (s : str) :
  matches icase (Star r) s <->
  exists ws, Forall (matches icase r) ws /\ s = concat ws.
Proof.
  split.
  - intros H. remember (Star r) as r' eqn:Er. revert Er.
    induction H as [| | | | | |r0 u v Hu _ Hv IHv]; try discriminate; intros Er.
    + now exists [].
    + injection Er as ->. destruct (IHv eq_refl) as (ws & Hws & ->).
      exists (u :: ws). split; [now constructor | reflexivity].
  - intros (ws & Hws & ->). induction Hws as [|w ws Hw _ IH]; simpl.
    + constructor.
    + now constructor.
Qed.

Lemma matches_plus_concat (icase : bool) (r : regex) (s : str) :
  matches icase (Plus r) s <->
  exists ws, ws <> [] /\ Forall (matches icase r) ws /\ s = concat ws.
Proof.
  unfold Plus. rewrite matches_cat. split.
  - intros (u & v & -> & H1 & H2). apply matches_star_concat in H2 as (ws & Hws & ->).
    exists (u :: ws). split; [discriminate |]. split; [now constructor | reflexivity].
  - intros (ws & Hne & Hws & ->). destruct ws as [|w ws]; [contradiction |].
    inversion Hws; subst. exists w, (concat ws).
    split; [reflexivity |]. split; [assumption |].
    apply matches_star_concat. now exists ws.
Qed.

(** Literals, case ignored. *)
Lemma matches_lit (x : codepoint) (s : str) :
  fold_case x = x ->
  matches true (Lit x) s <-> exists c, s = [c] /\ fold_case c = x.
Proof.
  intros Hx. unfold Lit. rewrite matches_sym.
  split; intros (c & -> & H); exists c; (split; [reflexivity |]).
  - rewrite sym_lit in H by exact Hx. now apply N.eqb_eq.
  - rewrite sym_lit by exact Hx. now apply N.eqb_eq.
Qed.

Lemma matches_str (l : str) (s : str) :
  forallb (fun x => N.eqb (fold_case x) x) l = true ->
  matches true (Str l) s <-> map fold_case s = l.
Proof.
  revert s. induction l as [|x l IH]; intros s Hl; cbn [Str].
  - rewrite matches_eps. split; [now intros -> | now destruct s].
  - simpl in Hl. apply andb_true_iff in Hl as [Hx Hl]. apply N.eqb_eq in Hx.
    unfold Lit. rewrite matches_sym_cons. split.
    + intros (c & s' & -> & H1 & H2). rewrite sym_lit in H1 by exact Hx.
      apply N.eqb_eq in H1. apply IH in H2; [| exact Hl]. simpl. congruence.
    + destruct s as [|c s']; [discriminate |]. cbn [map]. intros E. injection E as E1 E2.
      exists c, s'. split; [reflexivity |]. split.
      * rewrite sym_lit by exact Hx. now apply N.eqb_eq.
      * now apply IH.
Qed.

(** A literal that is no letter takes itself only. *)
Lemma matches_punct (x : codepoint) (s : str) :
  is_letter x = false -> matches true (Lit x) s <-> s = [x].
Proof.
  intros Hx. rewrite matches_lit by now apply fold_case_fixes_no_letter.
  split.
  - intros (c & -> & H). now rewrite (lower_fixes x c Hx H).
  - intros ->. exists x. split; [reflexivity | now apply fold_case_fixes_no_letter].
Qed.

(** ** The pieces of the URL pattern *)

Lemma forallb_sym (cs : list cset) (p : codepoint -> bool) (s : str) :
  (forall c, sym_mem true cs c = p c) ->
  forallb (sym_mem true cs) s = forallb p s.
Proof. intros H. induction s as [|c s IH]; simpl; [reflexivity | now rewrite H, IH]. Qed.

Lemma map_lower_punct (l w : str) :
  forallb (fun x => negb (is_letter x)) l = true -> map fold_case w = l -> w = l.
Proof.
  revert w. induction l as [|x l IH]; intros w Hl E.
  - now destruct w.
  - destruct w as [|c w]; [discriminate |]. simpl in *.
    apply andb_true_iff in Hl as [Hx Hl]. apply negb_true_iff in Hx.
    injection E as E1 E2. f_equal; [now apply lower_fixes | now apply IH].
Qed.

Lemma is_alnum_hyphen_of_alnum (c : codepoint) :
  is_alnum c = true -> is_alnum_hyphen c = true.
Proof. unfold is_alnum_hyphen. now intros ->. Qed.

(** *** The scheme *)

Lemma matches_scheme (s : str) :
  matches true scheme_re s <-> exists scheme, is_scheme scheme /\ s = scheme ++ codepoints "://".
Proof.
  unfold scheme_re, is_scheme.
  rewrite matches_cat. split.
  - intros (u & vw & -> & Hu & Hvw).
    apply matches_cat in Hvw as (v & w & -> & Hv & Hw).
    apply matches_str in Hw; [| reflexivity].
    apply map_lower_punct in Hw; [| reflexivity]. subst w.
    exists (u ++ v). split; [| now rewrite app_assoc].
    rewrite map_app.
    apply matches_alt in Hu as [Hu | Hu]; (apply matches_str in Hu; [| reflexivity]);
      rewrite Hu;
      (apply matches_opt in Hv as [Hv | ->];
       [apply matches_lit in Hv as (c & -> & Hc); [| reflexivity]; simpl; rewrite Hc |]);
      simpl; tauto.
  - intros (scheme & H & ->).
    assert (Hs : exists u v,
               scheme = u ++ v
               /\ (map fold_case u = codepoints "http" \/ map fold_case u = codepoints "ftp")
               /\ ((exists c, v = [c] /\ fold_case c = ord "s") \/ v = [])).
    { simpl in H. destruct H as [H | [H | [H | [H | []]]]]; symmetry in H.
      - exists scheme, []. rewrite app_nil_r. auto.
      - destruct scheme as [|a [|b [|c [|d [|e [|]]]]]]; try discriminate H.
        injection H as Ha Hb Hc Hd He.
        exists [a; b; c; d], [e]. simpl. rewrite Ha, Hb, Hc, Hd.
        split; [reflexivity |]. split; [now left |]. left. now exists e.
      - exists scheme, []. rewrite app_nil_r. auto.
      - destruct scheme as [|a [|b [|c [|d [|]]]]]; try discriminate H.
        injection H as Ha Hb Hc Hd.
        exists [a; b; c], [d]. simpl. rewrite Ha, Hb, Hc.
        split; [reflexivity |]. split; [now right |]. left. now exists d. }
    destruct Hs as (u & v & -> & Hu & Hv).
    exists u, (v ++ codepoints "://"). split; [now rewrite app_assoc |]. split.
    + apply matches_alt.
      destruct Hu as [Hu | Hu]; [left | right]; now apply matches_str.
    + apply matches_cat. exists v, (codepoints "://"). split; [reflexivity |]. split.
      * apply matches_opt. destruct Hv as [(c & -> & Hc) | ->]; [left | now right].
        apply matches_lit; [reflexivity | eauto].
      * now apply matches_str.
Qed.

(** *** Labels and domain names *)

Lemma matches_label (l : str) : matches true label_re l <-> is_label l.
Proof.
  unfold label_re, is_label. rewrite matches_sym_cons. split.
  - intros (c & s' & -> & Hc & Hs'). rewrite sym_AZd in Hc.
    apply matches_opt in Hs' as [Hs' | ->].
    + apply matches_cat in Hs' as (mid & e & -> & Hmid & He).
      apply matches_rep_sym in Hmid as [L Hmid]; [| lia].
      rewrite (forallb_sym _ _ _ sym_AZd_hyphen) in Hmid.
      apply matches_sym in He as (e' & -> & He). rewrite sym_AZd in He.
      simpl. rewrite length_app. simpl. split; [lia |]. split.
      * rewrite forallb_app. simpl.
        now rewrite Hmid, (is_alnum_hyphen_of_alnum _ Hc), (is_alnum_hyphen_of_alnum _ He).
      * split; [now exists c |]. exists e'. split; [| exact He].
        change (c :: mid ++ [e']) with ((c :: mid) ++ [e']). apply last_snoc.
    + simpl. rewrite (is_alnum_hyphen_of_alnum _ Hc).
      split; [lia |]. split; [reflexivity |]. split; now exists c.
  - intros (L & Hall & (c & Hhd & Hc) & (e & Hlast & He)).
    destruct l as [|c' s']; [discriminate |]. simpl in Hhd. injection Hhd as ->.
    exists c, s'. split; [reflexivity |]. split; [now rewrite sym_AZd |].
    apply matches_opt.
    destruct s' as [|x s'] using rev_ind; [now right | left]. clear IHs'.
    change (c :: s' ++ [x]) with ((c :: s') ++ [x]) in Hlast, Hall, L.
    rewrite last_snoc in Hlast. injection Hlast as ->.
    rewrite forallb_app in Hall. apply andb_true_iff in Hall as [Hall _].
    simpl in Hall. apply andb_true_iff in Hall as [_ Hall].
    rewrite length_app in L. simpl in L.
    apply matches_cat. exists s', [e]. split; [reflexivity |]. split.
    + apply matches_rep_sym; [lia |]. split; [lia |].
      now rewrite (forallb_sym _ _ _ sym_AZd_hyphen).
    + apply matches_sym. exists e. split; [reflexivity | now rewrite sym_AZd].
Qed.

Lemma matches_opt_dot (s : str) :
  matches true (Opt (Lit (ord "."))) s <-> s = [] \/ s = [ord "."].
Proof. rewrite matches_opt, matches_punct by reflexivity. tauto. Qed.

Lemma matches_tld (s : str) :
  matches true tld_re s <->
  exists t dot, is_tld t /\ (dot = [] \/ dot = [ord "."]) /\ s = t ++ dot.
Proof.
  unfold tld_re, is_tld. rewrite matches_alt, !matches_cat. split.
  - intros [(t & dot & -> & Ht & Hdot) | (t & dot & -> & Ht & Hdot)];
      apply matches_opt_dot in Hdot; exists t, dot; (split; [| tauto]).
    + apply matches_rep_sym in Ht; [| lia].
      rewrite (forallb_sym _ _ _ sym_AZ) in Ht. now left.
    + apply matches_repmin_sym in Ht.
      rewrite (forallb_sym _ _ _ sym_AZd_hyphen) in Ht. now right.
  - intros (t & dot & [Ht | Ht] & Hdot & ->); [left | right]; exists t, dot;
      (split; [reflexivity |]); (split; [| now apply matches_opt_dot]).
    + apply matches_rep_sym; [lia |]. now rewrite (forallb_sym _ _ _ sym_AZ).
    + apply matches_repmin_sym. now rewrite (forallb_sym _ _ _ sym_AZd_hyphen).
Qed.

Lemma matches_label_dot (w : str) :
  matches true (Cat label_re (Lit (ord "."))) w <-> exists l, is_label l /\ w = with_dot l.
Proof.
  rewrite matches_cat. unfold with_dot. split.
  - intros (l & d & -> & Hl & Hd). apply matches_label in Hl.
    apply matches_punct in Hd as ->; [| reflexivity]. eauto.
  - intros (l & Hl & ->). exists l, [ord "."].
    split; [reflexivity |]. split; [now apply matches_label |].
    now apply matches_punct.
Qed.

Lemma Forall_label_dot (ws : list str) :
  Forall (matches true (Cat label_re (Lit (ord ".")))) ws <->
  exists labels, Forall is_label labels /\ ws = map with_dot labels.
Proof.
  split.
  - induction 1 as [|w ws Hw _ (labels & Hl & ->)].
    + now exists [].
    + apply matches_label_dot in Hw as (l & Hl' & ->).
      exists (l :: labels). split; [now constructor | reflexivity].
  - intros (labels & Hl & ->). induction Hl as [|l labels Hl _ IH]; simpl.
    + constructor.
    + constructor; [| exact IH]. apply matches_label_dot. eauto.
Qed.

Lemma matches_domain (h : str) : matches true domain_re h <-> is_domain h.
Proof.
  unfold domain_re, is_domain. rewrite matches_cat. split.
  - intros (u & v & -> & Hu & Hv).
    apply matches_plus_concat in Hu as (ws & Hne & Hws & ->).
    apply Forall_label_dot in Hws as (labels & Hl & ->).
    apply matches_tld in Hv as (t & dot & Ht & Hdot & ->).
    exists labels, t, dot. repeat split; try assumption.
    intros ->. now apply Hne.
  - intros (labels & t & dot & Hne & Hl & Ht & Hdot & ->).
    exists (concat (map with_dot labels)), (t ++ dot).
    split; [reflexivity |]. split.
    + apply matches_plus_concat. exists (map with_dot labels).
      split; [now destruct labels |]. split; [| reflexivity].
      apply Forall_label_dot. eauto.
    + apply matches_tld. eauto.
Qed.

(** *** localhost and dotted quads *)

Lemma matches_localhost (h : str) :
  matches true localhost_re h <-> is_localhost h.
Proof. unfold localhost_re, is_localhost. now apply matches_str. Qed.

Lemma matches_octet (o : str) :
  matches true (Rep 1 3 (Sym [CDigit])) o <-> is_octet o.
Proof.
  unfold is_octet. rewrite matches_rep_sym by lia.
  now rewrite (forallb_sym _ _ _ sym_digit).
Qed.

Lemma matches_octet_dot (r : regex) (s : str) :
  matches true (Cat (Rep 1 3 (Sym [CDigit])) (Cat (Lit (ord ".")) r)) s <->
  exists o rest, is_octet o /\ matches true r rest /\ s = o ++ ord "." :: rest.
Proof.
  rewrite matches_cat. split.
  - intros (o & v & -> & Ho & Hv). apply matches_octet in Ho.
    apply matches_cat in Hv as (d & rest & -> & Hd & Hrest).
    apply matches_punct in Hd as ->; [| reflexivity]. eauto.
  - intros (o & rest & Ho & Hrest & ->). exists o, (ord "." :: rest).
    split; [reflexivity |]. split; [now apply matches_octet |].
    apply matches_cat. exists [ord "."], rest.
    split; [reflexivity |]. split; [now apply matches_punct | exact Hrest].
Qed.

Lemma matches_ip (h : str) : matches true ip_re h <-> is_dotted_quad h.
Proof.
  unfold ip_re, is_dotted_quad. cbv zeta.
  rewrite matches_octet_dot. split.
  - intros (a & r1 & Ha & H1 & ->).
    apply matches_octet_dot in H1 as (b & r2 & Hb & H2 & ->).
    apply matches_octet_dot in H2 as (c & d & Hc & Hd & ->).
    apply matches_octet in Hd. exists a, b, c, d. auto.
  - intros (a & b & c & d & Ha & Hb & Hc & Hd & ->).
    exists a, (b ++ ord "." :: c ++ ord "." :: d).
    split; [exact Ha |]. split; [| reflexivity].
    apply matches_octet_dot. exists b, (c ++ ord "." :: d).
    split; [exact Hb |]. split; [| reflexivity].
    apply matches_octet_dot. exists c, d.
    split; [exact Hc |]. split; [| reflexivity].
    now apply matches_octet.
Qed.

Lemma matches_host (h : str) : matches true host_re h <-> is_host h.
Proof.
  unfold host_re, is_host.
  now rewrite !matches_alt, matches_domain, matches_localhost, matches_ip.
Qed.

(** *** Port and path *)

Lemma matches_port (p : str) : matches true port_re p <-> is_port p.
Proof.
  unfold port_re, is_port. rewrite matches_opt, matches_cat. split.
  - intros [(u & d & -> & Hu & Hd) | ->]; [right | now left].
    apply matches_punct in Hu as ->; [| reflexivity].
    apply matches_plus_sym in Hd as [Hne Hd].
    rewrite (forallb_sym _ _ _ sym_digit) in Hd. now exists d.
  - intros [-> | (d & Hne & Hd & ->)]; [now right | left].
    exists [ord ":"], d. split; [reflexivity |]. split.
    + now apply matches_punct.
    + apply matches_plus_sym. split; [exact Hne |].
      now rewrite (forallb_sym _ _ _ sym_digit).
Qed.

Lemma matches_path (p : str) : matches true path_re p <-> is_path p.
Proof.
  unfold path_re, is_path.
  rewrite matches_alt, matches_opt, matches_punct by reflexivity.
  rewrite matches_sym_cons. split.
  - intros [[-> | ->] | (c & rest & -> & Hc & Hrest)]; [tauto | tauto |].
    right. right. rewrite sym_slash_or_question in Hc.
    apply orb_true_iff in Hc. rewrite !N.eqb_eq in Hc.
    apply matches_plus_sym in Hrest as [Hne Hrest].
    rewrite (forallb_sym _ _ _ sym_non_space) in Hrest.
    now exists c, rest.
  - intros [-> | [-> | (c & rest & Hc & Hne & Hrest & ->)]]; [tauto | tauto |].
    right. exists c, rest. split; [reflexivity |]. split.
    + rewrite sym_slash_or_question. apply orb_true_iff. now rewrite !N.eqb_eq.
    + apply matches_plus_sym. split; [exact Hne |].
      now rewrite (forallb_sym _ _ _ sym_non_space).
Qed.

(** *** The whole pattern *)

Lemma matches_url (s : str) : matches true url_regex s <-> url_shape s.
Proof.
  unfold url_regex, url_shape. rewrite matches_cat. split.
  - intros (u & v & -> & Hu & Hv).
    apply matches_scheme in Hu as (scheme & Hs & ->).
    apply matches_cat in Hv as (host & w & -> & Hh & Hw).
    apply matches_cat in Hw as (port & path & -> & Hp & Hq).
    apply matches_host in Hh. apply matches_port in Hp. apply matches_path in Hq.
    exists scheme, host, port, path. repeat split; try assumption.
    now rewrite <- app_assoc.
  - intros (scheme & host & port & path & Hs & Hh & Hp & Hq & ->).
    exists (scheme ++ codepoints "://"), (host ++ port ++ path).
    split; [now rewrite <- app_assoc |]. split.
    + apply matches_scheme. eauto.
    + apply matches_cat. exists host, (port ++ path).
      split; [reflexivity |]. split; [now apply matches_host |].
      apply matches_cat. exists port, path.
      split; [reflexivity |]. split; [now apply matches_port | now apply matches_path].
Qed.

Lemma strip_final_newline_spec (s s' : str) :
  strip_final_newline s = Some s' <-> s = s' ++ [newline].
Proof.
  revert s'. induction s as [|c s IH]; intros s'.
  - simpl. split; [discriminate | now destruct s'].
  - destruct s as [|c' s].
    + simpl. destruct (N.eqb_spec c newline) as [-> | Hc]; split.
      * now intros [= <-].
      * destruct s' as [|x [|y s']]; [reflexivity | discriminate | discriminate].
      * discriminate.
      * destruct s' as [|x [|y s']]; [now intros [= ->] | discriminate | discriminate].
    + change (strip_final_newline (c :: c' :: s))
        with (option_map (cons c) (strip_final_newline (c' :: s))).
      destruct (strip_final_newline (c' :: s)) as [t |] eqn:E; simpl; split.
      * intros [= <-]. simpl. f_equal. now apply IH.
      * destruct s' as [|x s']; [discriminate |]. intros [= -> H].
        apply IH in H. now injection H as ->.
      * discriminate.
      * destruct s' as [|x s']; [discriminate |]. intros [= -> H].
        apply IH in H. discriminate.
Qed.

(** [url_validate] in the words of the specification. *)
Lemma url_validate_spec (target : str) :
  url_validate target = true <->
  url_shape target
  \/ exists s, target = s ++ [newline] /\ url_shape s.
Proof.
  unfold url_validate, re_match_dollar, IGNORECASE.
  destruct (fullmatch true url_regex target) eqn:F.
  - apply fullmatch_spec, matches_url in F. simpl. tauto.
  - simpl. assert (NF : ~ url_shape target).
    { intros H. apply matches_url, fullmatch_spec in H. congruence. }
    destruct (strip_final_newline target) as [s' |] eqn:E.
    + apply strip_final_newline_spec in E.
      destruct (fullmatch true url_regex s') eqn:F'.
      * apply fullmatch_spec, matches_url in F'. split; [eauto | reflexivity].
      * split; [discriminate |]. intros [H | (s & Es & H)]; [contradiction |].
        rewrite E in Es. apply app_inj_tail in Es as [-> _].
        apply matches_url, fullmatch_spec in H. congruence.
    + split; [discriminate |]. intros [H | (s & Es & H)]; [contradiction |].
      apply strip_final_newline_spec in Es. congruence.
Qed.

(** C7, as the code has it.  [url_validate] is a total function from
    strings to booleans that touches nothing else.  It returns true
    exactly for the strings that are, whole or with one final line feed
    taken off, a scheme http, https, ftp or ftps, then [://], then a
    dot-separated domain name or [localhost] or four dot-separated
    groups of one to three digits (of any value), then an optional port
    and an optional path or query.  Case is ignored as [re] ignores it
    on a [str]: besides the two ASCII cases of a letter, [ſ] (U+017F)
    is taken for [s], the Kelvin sign (U+212A) for [k], and [İ]
    (U+0130) and [ı] (U+0131) for [i]; a digit is any decimal digit of
    Unicode.  So it accepts [https://example.com],
    [ftp://localhost:21/path] and [http://999.999.999.999], rejects
    [not a url], and accepts [http://localhoſt] and a port written with
    the Arabic-Indic digit one (U+0661). *)
Theorem url_validate_full_match (target : str) :
  (url_validate target = true \/ url_validate target = false)
  /\ (url_validate target = true <->
      url_shape target
      \/ exists s, target = s ++ [newline] /\ url_shape s)
  /\ url_validate (codepoints "https://example.com") = true
  /\ url_validate (codepoints "ftp://localhost:21/path") = true
  /\ url_validate (codepoints "http://999.999.999.999") = true
  /\ url_validate (codepoints "not a url") = false
  /\ url_validate (codepoints "http://localho" ++ [0x17F%N] ++ codepoints "t") = true
  /\ url_validate (codepoints "http://localhost:" ++ [0x661%N]) = true.
Proof.
  split; [destruct (url_validate target); tauto |].
  split; [apply url_validate_spec |].
  repeat split; vm_compute; reflexivity.
Qed.

(** C7 as the specification states it fails: a URL followed by a line
    feed is accepted, and is no match of the whole string. *)
Lemma trailing_newline_is_accepted :
  url_validate localhost_newline = true
  /\ ~ url_shape localhost_newline.
Proof.
  split; [vm_compute; reflexivity |].
  intros H. apply matches_url, fullmatch_spec in H. vm_compute in H. discriminate H.
Qed.

(** ** Strings *)

Lemma append_cons (c : ascii) (a b : string) :
  String c a +:+ b = String c (a +:+ b).
Proof. reflexivity. Qed.

Lemma append_nil_l (b : string) : "" +:+ b = b.
Proof. reflexivity. Qed.

Lemma append_nil_r (s : string) : s +:+ "" = s.
Proof.
  induction s as [|c s IH]; [reflexivity |].
  now rewrite append_cons, IH.
Qed.

Lemma append_assoc (a b c : string) : (a +:+ b) +:+ c = a +:+ (b +:+ c).
Proof.
  induction a as [|x a IH]; [reflexivity |].
  now rewrite !append_cons, IH.
Qed.

Lemma append_length (a b : string) :
  String.length (a +:+ b) = (String.length a + String.length b)%nat.
Proof.
  induction a as [|x a IH]; [reflexivity |].
  rewrite append_cons. simpl. now rewrite IH.
Qed.

Lemma append_inj_l (a x y : string) : a +:+ x = a +:+ y -> x = y.
Proof.
  induction a as [|c a IH]; intros H; [exact H |].
  rewrite !append_cons in H. injection H as H. now apply IH.
Qed.

Lemma endswith_sep_append (a : string) (c : ascii) (b : string) :
  endswith_sep (a +:+ String c b) = endswith_sep (String c b).
Proof.
  induction a as [|x a IH]; [reflexivity |].
  rewrite append_cons.
  destruct a as [|y a].
  - reflexivity.
  - rewrite append_cons in *. exact IH.
Qed.

Lemma eqb_empty (s : string) : String.eqb s "" = true <-> s = "".
Proof. apply String.eqb_eq. Qed.

(** ** os.path.join *)

Lemma join_two (a b c : string) : join a [b; c] = join_step (join_step a b) c.
Proof. reflexivity. Qed.

Lemma join_absolute (a b : string) : startswith_sep b = true -> join_step a b = b.
Proof. unfold join_step. now intros ->. Qed.

(** Joining a relative segment to a host that is not empty and has no
    final separator puts one separator in between. *)
Lemma join_plain (a b : string) :
  a <> "" -> endswith_sep a = false -> startswith_sep b = false ->
  join_step a b = a +:+ "/" +:+ b.
Proof.
  intros Ha He Hb. unfold join_step. rewrite Hb, He.
  destruct (String.eqb a "") eqn:E; [apply eqb_empty in E; contradiction | reflexivity].
Qed.

Lemma join_collections_plain (host : string) :
  host <> "" -> endswith_sep host = false ->
  join host ["collections"] = host +:+ "/collections".
Proof. intros H1 H2. unfold join; simpl. now rewrite join_plain. Qed.

(** When the host is empty or ends in a separator, none is added. *)
Lemma join_bare (a b : string) :
  String.eqb a "" || endswith_sep a = true -> startswith_sep b = false ->
  join_step a b = a +:+ b.
Proof. intros Ha Hb. unfold join_step. now rewrite Hb, Ha. Qed.

Lemma longer_differs (a b : string) : a <> "" -> b <> a +:+ b.
Proof.
  intros Ha E. apply (f_equal String.length) in E. rewrite append_length in E.
  destruct a; [contradiction | simpl in E; lia].
Qed.

Lemma collections_url_tail (host : string) :
  exists p, join_step host "collections" = p +:+ "s" /\ p <> "".
Proof.
  unfold join_step; simpl.
  destruct (String.eqb host "" || endswith_sep host).
  - exists (host +:+ "collection"). split.
    + now rewrite append_assoc.
    + destruct host; discriminate.
  - exists (host +:+ "/collection"). split.
    + now rewrite !append_assoc.
    + destruct host; discriminate.
Qed.

(** The GET target of [stac_collection_exists], in full. *)
Lemma join_collection_id (host id : string) :
  join host ["collections"; id] =
    if startswith_sep id then id
    else if String.eqb host "" || endswith_sep host
         then host +:+ "collections/" +:+ id
         else host +:+ "/collections/" +:+ id.
Proof.
  rewrite join_two.
  destruct (startswith_sep id) eqn:Hid; [now apply join_absolute |].
  destruct (collections_url_tail host) as (p & Hp & Hne).
  rewrite join_plain; [| | | exact Hid].
  - unfold join_step; simpl.
    destruct (String.eqb host "" || endswith_sep host);
      now rewrite ?append_assoc.
  - rewrite Hp. destruct p; [contradiction | discriminate].
  - rewrite Hp. now rewrite endswith_sep_append.
Qed.

(** ** The exception classes *)

(** Every class of [requests.exceptions] descends from
    [RequestException], so the clause of [stac_host_reachable] lets
    none of them through. *)
Lemma all_are_RequestException (c : requests_exception) :
  issubclass c RequestException = true.
Proof. destruct c; reflexivity. Qed.

Lemma caught_by_clause (c : requests_exception) :
  caught_by [RequestException; ConnectionError] (RequestsError c) = true.
Proof. simpl. now rewrite all_are_RequestException. Qed.

(** ** Events *)

Lemma requests_sent_app (t1 t2 : list event) :
  requests_sent (t1 ++ t2) = requests_sent t1 ++ requests_sent t2.
Proof. unfold requests_sent. apply flat_map_app. Qed.

Lemma requests_sent_snoc_sent (tr : list event) (r : request) :
  requests_sent (tr ++ [Sent r]) = requests_sent tr ++ [r].
Proof. now rewrite requests_sent_app. Qed.

Lemma requests_sent_snoc_printed (tr : list event) (line : string) :
  requests_sent (tr ++ [Printed line]) = requests_sent tr.
Proof. rewrite requests_sent_app. simpl. apply app_nil_r. Qed.

Lemma raise_for_status_spec (status_code : Z) (tr : list event) :
  raise_for_status status_code tr =
    (if (400 <=? status_code) && (status_code <? 600)
     then Raise (RequestsError HTTPError) else Ok tt, tr).
Proof. unfold raise_for_status. now destruct (_ && _). Qed.

Section Client_properties.

Variable net : network.
Variable str_of : value -> string.

Lemma requests_call_spec (r : request) (tr : list event) :
  requests_call net r tr =
    (match net (requests_sent tr) r with
     | Response status_code => Ok status_code
     | Fails c => Raise (RequestsError c)
     | Leaks e => Raise e
     end, tr ++ [Sent r]).
Proof. unfold requests_call. now destruct (net _ _). Qed.

(** *** stac_host_reachable *)

(** What the probe returns, case by case of the reply. *)
Lemma stac_host_reachable_spec (url : string) (tr : list event) :
  stac_host_reachable net url tr =
    (match net (requests_sent tr) (get_request url true) with
     | Response status_code =>
         Ok (negb ((400 <=? status_code) && (status_code <? 600)))
     | Fails _ => Ok false
     | Leaks e =>
         if caught_by [RequestException; ConnectionError] e then Ok false
         else Raise e
     end,
     tr ++ [Sent (get_request url true)]).
Proof.
  unfold stac_host_reachable, try_except, requests_get, mbind, io_bind.
  rewrite requests_call_spec. fold (get_request url true).
  destruct (net _ _) as [status_code | c | e].
  - rewrite raise_for_status_spec.
    destruct ((400 <=? status_code) && (status_code <? 600)); reflexivity.
  - now rewrite caught_by_clause.
  - destruct (caught_by _ e); reflexivity.
Qed.


(** *** stac_collection_exists *)

(** C3.  When the GET comes back with a status, [stac_collection_exists]
    returns true if and only if that status is 200, and false on every
    other one. *)
Theorem stac_collection_exists_iff_200
    (stac_host collection_id : string) (tr : list event) (status_code : Z) :
  net (requests_sent tr)
      (get_request (join stac_host ["collections"; collection_id]) false)
    = Response status_code ->
  exists b,
    fst (stac_collection_exists net stac_host collection_id tr) = Ok b
    /\ (b = true <-> status_code = 200)
    /\ (status_code <> 200 -> b = false).
Proof.
  intros H.
  unfold stac_collection_exists, requests_get, mbind, io_bind.
  rewrite requests_call_spec.
  fold (get_request (join stac_host ["collections"; collection_id]) false).
  rewrite H. simpl. exists (status_code =? 200).
  split; [reflexivity |]. split.
  - apply Z.eqb_eq.
  - apply Z.eqb_neq.
Qed.

(** *** post_stac_collection *)

(** Neither message can be built: its first field reads [bcolors]. *)
Lemma pushed_message_raises (collection_id : value) (stac_host : string) (r : Z) :
  pushed_message str_of collection_id stac_host r = Raise (NameError "bcolors").
Proof. reflexivity. Qed.

Lemma exists_message_raises (collection_id : value) (stac_host : string) (r : Z) :
  exists_message str_of collection_id stac_host r = Raise (NameError "bcolors").
Proof. reflexivity. Qed.

(** What the publisher does after the first reply, in full. *)
Lemma post_stac_collection_spec
    (stac_host : string) (json_data : gmap string value) (collection_id : value)
    (tr : list event) :
  json_data !! "id" = Some collection_id ->
  post_stac_collection net str_of stac_host json_data tr =
    let post := post_request stac_host json_data in
    (match net (requests_sent tr) post with
     | Fails c => Raise (RequestsError c)
     | Leaks e => Raise e
     | Response r =>
         if (r =? 200) || (r =? 409) then Raise (NameError "bcolors")
         else if (400 <=? r) && (r <? 600) then Raise (RequestsError HTTPError)
         else Ok tt
     end, tr ++ [Sent post]).
Proof.
  intros Hid. cbv zeta.
  unfold post_stac_collection, requests_post, mbind, io_bind, io_lift, dict_getitem.
  rewrite Hid, requests_call_spec. fold (post_request stac_host json_data).
  destruct (net _ _) as [r | c | e]; [| reflexivity | reflexivity].
  destruct (r =? 200); [now rewrite pushed_message_raises |].
  destruct (r =? 409); [now rewrite exists_message_raises |].
  cbn [orb]. rewrite raise_for_status_spec.
  now destruct ((400 <=? r) && (r <? 600)).
Qed.

(** Without an [id] nothing happens but the [KeyError]. *)
Lemma post_no_id
    (stac_host : string) (json_data : gmap string value) (tr : list event) :
  json_data !! "id" = None ->
  post_stac_collection net str_of stac_host json_data tr
    = (Raise (KeyError (VStr "id")), tr).
Proof.
  intros H. unfold post_stac_collection, mbind, io_bind, io_lift, dict_getitem.
  now rewrite H.
Qed.

(** One call adds nothing to the trace, or the POST alone. *)
Lemma post_stac_collection_trace
    (stac_host : string) (json_data : gmap string value) (tr : list event) :
  snd (post_stac_collection net str_of stac_host json_data tr)
  = match json_data !! "id" with
    | Some _ => tr ++ [Sent (post_request stac_host json_data)]
    | None => tr
    end.
Proof.
  destruct (json_data !! "id") as [cid |] eqn:Hid.
  - now rewrite (post_stac_collection_spec _ _ cid) by exact Hid.
  - now rewrite post_no_id by exact Hid.
Qed.

(** C10.  The GET of [stac_collection_exists] goes to
    [os.path.join(host, "collections", id)], and the POST of
    [post_stac_collection] to [os.path.join(host, "collections")].  That
    join is [host/collections/id] exactly when the id does not start
    with a separator and the host is neither empty nor ends in one; for
    an id that starts with [/] it is the id alone, the host is dropped,
    and the target is not [host/collections/id]. *)
Theorem request_url_is_path_join
    (stac_host collection_id : string) (json_data : gmap string value)
    (tr : list event) :
  snd (stac_collection_exists net stac_host collection_id tr)
    = tr ++ [Sent (get_request (join stac_host ["collections"; collection_id]) false)]
  /\ (is_Some (json_data !! "id") ->
      exists rest,
        snd (post_stac_collection net str_of stac_host json_data tr)
          = tr ++ Sent (post_request stac_host json_data) :: rest)
  /\ (join stac_host ["collections"; collection_id]
        = stac_host +:+ "/collections/" +:+ collection_id
      <-> startswith_sep collection_id = false
          /\ stac_host <> "" /\ endswith_sep stac_host = false)
  /\ (startswith_sep collection_id = true ->
      join stac_host ["collections"; collection_id] = collection_id
      /\ join stac_host ["collections"; collection_id]
           <> stac_host +:+ "/collections/" +:+ collection_id).
Proof.
  split; [| split; [| split]].
  - unfold stac_collection_exists, requests_get, mbind, io_bind.
    rewrite requests_call_spec. now destruct (net _ _).
  - intros [cid Hid]. exists [].
    now rewrite post_stac_collection_trace, Hid.
  - rewrite join_collection_id. split.
    + destruct (startswith_sep collection_id) eqn:Hid.
      * rewrite <- append_assoc. intros E. exfalso. revert E. apply longer_differs.
        destruct stac_host; discriminate.
      * destruct (String.eqb stac_host "" || endswith_sep stac_host) eqn:Hh.
        -- intros E. apply append_inj_l in E. discriminate.
        -- intros _. apply orb_false_iff in Hh as [H1 H2].
           repeat split; [| exact H2].
           intros ->. discriminate.
    + intros (-> & Hne & ->).
      destruct (String.eqb stac_host "") eqn:E; [| reflexivity].
      apply eqb_empty in E. contradiction.
  - intros Hid. rewrite join_collection_id, Hid. split; [reflexivity |].
    rewrite <- append_assoc. apply longer_differs. destruct stac_host; discriminate.
Qed.

(** C1, on the code as it is.  When the first POST is answered 409, the
    publisher raises [NameError]: the warning is an f-string that reads
    [bcolors.WARNING], and the module neither defines nor imports
    [bcolors].  The exception comes before [print] is called and before
    the PUT: nothing is printed, and the POST is the one request
    made. *)
Theorem post_stac_collection_conflict_raises
    (stac_host : string) (json_data : gmap string value) (collection_id : value)
    (tr : list event) :
  json_data !! "id" = Some collection_id ->
  net (requests_sent tr) (post_request stac_host json_data) = Response 409 ->
  post_stac_collection net str_of stac_host json_data tr
    = (Raise (NameError "bcolors"), tr ++ [Sent (post_request stac_host json_data)]).
Proof.
  intros Hid Hpost.
  rewrite (post_stac_collection_spec _ _ collection_id) by exact Hid. cbv zeta.
  now rewrite Hpost.
Qed.

(** C2, as the code has it.  When the first POST is answered with a
    status that is neither 200 nor 409, nothing is printed and no second
    request is made: a 4xx or 5xx status raises [HTTPError] at once, and
    any other status (201, 204, 301, ...) lets the function return
    normally. *)
Theorem post_stac_collection_other_status
    (stac_host : string) (json_data : gmap string value) (collection_id : value)
    (tr : list event) (r : Z) :
  json_data !! "id" = Some collection_id ->
  net (requests_sent tr) (post_request stac_host json_data) = Response r ->
  r <> 200 -> r <> 409 ->
  post_stac_collection net str_of stac_host json_data tr =
    (if (400 <=? r) && (r <? 600)
     then Raise (RequestsError HTTPError) else Ok tt,
     tr ++ [Sent (post_request stac_host json_data)]).
Proof.
  intros Hid Hpost H200 H409.
  rewrite (post_stac_collection_spec _ _ collection_id) by exact Hid. cbv zeta.
  rewrite Hpost.
  apply Z.eqb_neq in H200, H409. now rewrite H200, H409.
Qed.

End Client_properties.

(** ** The client on concrete servers *)



Lemma stac_collection_exists_iff_200_witness :
  exists b,
    fst (stac_collection_exists (scripted [Response 404]) "http://stac.example" "c1" [])
      = Ok b
    /\ (b = true <-> 404 = 200) /\ (404 <> 200 -> b = false).
Proof.
  apply (stac_collection_exists_iff_200 (scripted [Response 404])
           "http://stac.example" "c1" [] 404).
  reflexivity.
Defined.

Lemma request_url_is_path_join_witness :
  join "http://stac.example" ["collections"; "/c1"] = "/c1"
  /\ join "http://stac.example" ["collections"; "/c1"]
       <> "http://stac.example" +:+ "/collections/" +:+ "/c1".
Proof.
  destruct (request_url_is_path_join (scripted []) no_str
              "http://stac.example" "/c1" ∅ []) as (_ & _ & _ & H).
  apply H. reflexivity.
Defined.

Lemma post_stac_collection_conflict_raises_witness :
  post_stac_collection (scripted [Response 409; Response 200]) no_str
    "http://stac.example" {[ "id" := VStr "c1" ]} []
  = (Raise (NameError "bcolors"),
     [Sent (post_request "http://stac.example" {[ "id" := VStr "c1" ]})]).
Proof.
  apply (post_stac_collection_conflict_raises (scripted [Response 409; Response 200]) no_str
           "http://stac.example" {[ "id" := VStr "c1" ]} (VStr "c1") []);
    reflexivity.
Defined.

(** C2 as the specification states it fails: a POST answered 201 makes
    the function return normally. *)
Lemma post_201_returns_normally :
  post_stac_collection (scripted [Response 201]) no_str
    "http://stac.example" {[ "id" := VStr "c1" ]} []
  = (Ok tt, [Sent (post_request "http://stac.example" {[ "id" := VStr "c1" ]})])
  /\ 201 <> 200 /\ 201 <> 409.
Proof. split; [vm_compute; reflexivity | lia]. Qed.

Lemma post_stac_collection_other_status_witness :
  post_stac_collection (scripted [Response 500]) no_str
    "http://stac.example" {[ "id" := VStr "c1" ]} []
  = (Raise (RequestsError HTTPError),
     [Sent (post_request "http://stac.example" {[ "id" := VStr "c1" ]})]).
Proof.
  apply (post_stac_collection_other_status (scripted [Response 500]) no_str
           "http://stac.example" {[ "id" := VStr "c1" ]} (VStr "c1") [] 500);
    [reflexivity | reflexivity | lia | lia].
Defined.

(** ** strptime *)

Lemma is_digit_cases (c : ascii) :
  is_digit c = true ->
  In c ["0"; "1"; "2"; "3"; "4"; "5"; "6"; "7"; "8"; "9"]%char.
Proof.
  destruct c as [[] [] [] [] [] [] [] []]; intros H; try discriminate H;
    simpl; tauto.
Qed.

Lemma in_range_is_digit (lo hi c : ascii) :
  is_digit lo = true -> is_digit hi = true ->
  in_range lo hi c = true -> is_digit c = true.
Proof.
  unfold is_digit, in_range. change (code "0") with 48. change (code "9") with 57.
  rewrite !andb_true_iff, !Z.leb_le. lia.
Qed.

Lemma in_range_code (lo hi c : ascii) :
  in_range lo hi c = true <-> code lo <= code c <= code hi.
Proof. unfold in_range. rewrite andb_true_iff, !Z.leb_le. tauto. Qed.

(** Membership in the results of the pieces. *)
Lemma in_p_range (lo hi : ascii) (l : list ascii) (v : Z) (r : list ascii) :
  In (v, r) (p_range lo hi l) <->
  exists c, l = c :: r /\ in_range lo hi c = true /\ v = code c - 48.
Proof.
  unfold p_range. destruct l as [|c l].
  - simpl. split; [tauto | intros (c & H & _); discriminate].
  - destruct (in_range lo hi c) eqn:E; simpl.
    + split.
      * intros [H | []]. injection H as <- <-. now exists c.
      * intros (c' & H & _ & ->). injection H as <- <-. now left.
    + split; [tauto |]. intros (c' & H & H' & _). injection H as <- <-. congruence.
Qed.

Lemma in_p_char (x : ascii) (l : list ascii) (u : unit) (r : list ascii) :
  In (u, r) (p_char x l) <-> l = x :: r.
Proof.
  unfold p_char. destruct l as [|c l].
  - simpl. split; [tauto | discriminate].
  - destruct (Ascii.eqb c x) eqn:E; simpl.
    + apply Ascii.eqb_eq in E as ->. destruct u. split.
      * intros [H | []]. now injection H as <-.
      * intros H. injection H as <-. now left.
    + apply Ascii.eqb_neq in E. split; [tauto |]. intros H. now injection H as -> ->.
Qed.

Lemma in_p_bind {A B} (p : parser A) (k : A -> parser B) (l : list ascii)
    (b : B) (r : list ascii) :
  In (b, r) (@mbind parser _ _ _ k p l) <-> exists a r', In (a, r') (p l) /\ In (b, r) (k a r').
Proof.
  unfold mbind, parser_bind. rewrite in_flat_map. split.
  - intros ([a r'] & H1 & H2). now exists a, r'.
  - intros (a & r' & H1 & H2). now exists (a, r').
Qed.

Lemma in_p_ret {A} (a : A) (l : list ascii) (b : A) (r : list ascii) :
  In (b, r) (@mret parser _ _ a l) <-> b = a /\ r = l.
Proof.
  unfold mret, parser_ret. simpl. split.
  - intros [H | []]. now injection H as <- <-.
  - intros [-> ->]. now left.
Qed.

Lemma in_p_alt {A} (p q : parser A) (l : list ascii) (x : A * list ascii) :
  In x (p_alt p q l) <-> In x (p l) \/ In x (q l).
Proof. unfold p_alt. apply in_app_iff. Qed.

Ltac parser_inv :=
  repeat match goal with
  | H : In _ (p_alt _ _ _) |- _ => apply in_p_alt in H as [H | H]
  | H : In (_, _) (@mbind parser _ _ _ _ _ _) |- _ =>
      let a := fresh "a" in let r := fresh "r" in let H' := fresh "H" in
      apply in_p_bind in H as (a & r & H & H')
  | H : In (_, _) (@mret parser _ _ _ _) |- _ => apply in_p_ret in H as [-> ->]
  | H : In (_, _) (p_char _ _) |- _ => apply in_p_char in H as ->
  | H : In (_, _) (p_range _ _ _) |- _ =>
      let c := fresh "c" in let E := fresh "E" in
      apply in_p_range in H as (c & -> & E & ->)
  end.

Ltac take1 :=
  match goal with |- exists t, ?a :: ?r = _ /\ _ => exists [a] end.
Ltac take2 :=
  match goal with |- exists t, ?a :: ?b :: ?r = _ /\ _ => exists [a; b] end.
Ltac take4 :=
  match goal with
  | |- exists t, ?a :: ?b :: ?c :: ?d :: ?r = _ /\ _ => exists [a; b; c; d]
  end.
Ltac digits :=
  repeat match goal with
  | E : in_range ?lo ?hi ?c = true |- context [is_digit ?c] =>
      rewrite (in_range_is_digit lo hi c eq_refl eq_refl E)
  end.

Lemma digits_value_snoc (t : list ascii) (c : ascii) :
  digits_value (t ++ [c]) = 10 * digits_value t + (code c - 48).
Proof. unfold digits_value. now rewrite fold_left_app. Qed.

Lemma directive_Y_sound (l : list ascii) (y : Z) (r : list ascii) :
  In (y, r) (directive_Y l) ->
  exists ys, l = ys ++ r /\ length ys = 4%nat /\ is_number ys y.
Proof.
  unfold directive_Y. intros H. parser_inv. take4.
  split; [reflexivity |]. split; [reflexivity |]. split.
  - simpl. now digits.
  - unfold digits_value. simpl. lia.
Qed.

Lemma directive_m_sound (l : list ascii) (m : Z) (r : list ascii) :
  In (m, r) (directive_m l) ->
  exists ms, l = ms ++ r /\ (1 <= length ms <= 2)%nat /\ is_number ms m.
Proof.
  unfold directive_m. intros H. parser_inv; [take2 | take2 | take1].
  all: split; [reflexivity |]; split; [simpl; lia |]; split;
    [simpl; now digits | unfold digits_value; simpl; change (code "0") with 48; lia].
Qed.

Lemma directive_d_sound (l : list ascii) (d : Z) (r : list ascii) :
  In (d, r) (directive_d l) ->
  exists ds,
    l = ds ++ r
    /\ (((1 <= length ds <= 2)%nat /\ is_number ds d)
        \/ exists c, ds = [" "%char; c] /\ is_number [c] d).
Proof.
  unfold directive_d. intros H. parser_inv; [take2 | take2 | take2 | take1 | take2].
  1-4: split; [reflexivity |]; left; split; [simpl; lia |]; split;
    [simpl; now digits | unfold digits_value; simpl; change (code "0") with 48; lia].
  split; [reflexivity |]. right. eexists. split; [reflexivity |]. split.
  - simpl. now digits.
  - unfold digits_value. simpl. lia.
Qed.

Lemma format_regex_sound (l : list ascii) (y m d : Z) (r : list ascii) :
  In ((y, m, d), r) (format_regex l) ->
  exists ys ms ds,
    l = ys ++ "-"%char :: ms ++ "-"%char :: ds ++ r
    /\ length ys = 4%nat /\ is_number ys y
    /\ (1 <= length ms <= 2)%nat /\ is_number ms m
    /\ (((1 <= length ds <= 2)%nat /\ is_number ds d)
        \/ exists c, ds = [" "%char; c] /\ is_number [c] d).
Proof.
  unfold format_regex. intros H.
  apply in_p_bind in H as (y' & r1 & HY & H).
  apply in_p_bind in H as (u1 & r2 & Hc1 & H).
  apply in_p_bind in H as (m' & r3 & HM & H).
  apply in_p_bind in H as (u2 & r4 & Hc2 & H).
  apply in_p_bind in H as (d' & r5 & HD & H).
  apply in_p_ret in H as [E ->]. injection E as -> -> ->.
  apply in_p_char in Hc1 as ->. apply in_p_char in Hc2 as ->.
  apply directive_Y_sound in HY as (ys & -> & Ly & Ny).
  apply directive_m_sound in HM as (ms & -> & Lm & Nm).
  apply directive_d_sound in HD as (ds & -> & Hd).
  exists ys, ms, ds. auto 10.
Qed.

Lemma directive_Y_complete (ys r : list ascii) :
  length ys = 4%nat -> forallb is_digit ys = true ->
  directive_Y (ys ++ r) = [(digits_value ys, r)].
Proof.
  destruct ys as [|a [|b [|c [|d [|]]]]]; try discriminate. intros _ H.
  simpl in H. rewrite !andb_true_iff in H. destruct H as (Ha & Hb & Hc & Hd & _).
  unfold is_digit in *.
  unfold directive_Y, mbind, parser_bind, mret, parser_ret, p_range. simpl.
  rewrite Ha. simpl. rewrite Hb. simpl. rewrite Hc. simpl. rewrite Hd. simpl.
  unfold digits_value. simpl. do 2 f_equal. lia.
Qed.

Ltac enum_digit H :=
  apply is_digit_cases in H; simpl in H;
  repeat (destruct H as [H | H]); [subst .. | contradiction].

Lemma directive_m_dash (ms : list ascii) (m : Z) (r : list ascii)
    {B} (k : Z -> parser B) :
  (1 <= length ms <= 2)%nat -> is_number ms m -> 1 <= m <= 12 ->
  (directive_m ≫= fun x => p_char "-" ≫= fun _ => k x) (ms ++ "-"%char :: r) = k m r.
Proof.
  intros L [D V] R.
  destruct ms as [|c1 [|c2 [|]]]; simpl in L; try lia; simpl in D;
    rewrite ?andb_true_iff in D.
  - destruct D as [D1 _]. enum_digit D1; vm_compute in R; try (exfalso; intuition congruence);
      unfold mbind, parser_bind; simpl; now rewrite ?app_nil_r.
  - destruct D as (D1 & D2 & _).
    enum_digit D1; enum_digit D2; vm_compute in R; try (exfalso; intuition congruence);
      unfold mbind, parser_bind; simpl; now rewrite ?app_nil_r.
Qed.

Lemma directive_d_end (ds : list ascii) (d : Z) :
  ((1 <= length ds <= 2)%nat /\ is_number ds d)
  \/ (exists c, ds = [" "%char; c] /\ is_number [c] d) ->
  1 <= d <= 31 ->
  exists junk, directive_d ds = (d, []) :: junk.
Proof.
  intros [[L [D V]] | (c & -> & [D V])] R.
  - destruct ds as [|c1 [|c2 [|]]]; simpl in L; try lia; simpl in D;
      rewrite ?andb_true_iff in D.
    + destruct D as [D1 _]. enum_digit D1; vm_compute in R;
        try (exfalso; intuition congruence); eexists; reflexivity.
    + destruct D as (D1 & D2 & _).
      enum_digit D1; enum_digit D2; vm_compute in R;
        try (exfalso; intuition congruence); eexists; reflexivity.
  - simpl in D. rewrite andb_true_iff in D. destruct D as [D1 _].
    enum_digit D1; vm_compute in R; try (exfalso; intuition congruence);
      eexists; reflexivity.
Qed.

Lemma valid_date_bounds (y m d : Z) :
  valid_date y m d = true -> 1 <= m <= 12 /\ 1 <= d <= 31.
Proof.
  unfold valid_date, days_in_month. rewrite !andb_true_iff, !Z.leb_le.
  intros (((((_ & _) & Hm1) & Hm2) & Hd1) & Hd2).
  destruct (m =? 2); [destruct (is_leap y) |]; [lia | lia |].
  destruct ((m =? 4) || (m =? 6) || (m =? 9) || (m =? 11)); lia.
Qed.

Lemma format_regex_complete (ys ms ds : list ascii) (y m d : Z) :
  length ys = 4%nat -> is_number ys y ->
  (1 <= length ms <= 2)%nat -> is_number ms m -> 1 <= m <= 12 ->
  ((1 <= length ds <= 2)%nat /\ is_number ds d)
  \/ (exists c, ds = [" "%char; c] /\ is_number [c] d) ->
  1 <= d <= 31 ->
  exists junk,
    format_regex (ys ++ "-"%char :: ms ++ "-"%char :: ds) = ((y, m, d), []) :: junk.
Proof.
  intros Ly [Dy Vy] Lm Nm Rm Hd Rd.
  destruct (directive_d_end ds d Hd Rd) as [junk Ed].
  unfold format_regex.
  unfold mbind at 1. unfold parser_bind at 1.
  rewrite (directive_Y_complete ys _ Ly Dy), Vy. cbn [flat_map].
  unfold mbind at 1. unfold parser_bind at 1. cbn [p_char Ascii.eqb Bool.eqb flat_map].
  rewrite (directive_m_dash ms m ds _ Lm Nm Rm).
  unfold mbind, parser_bind. rewrite Ed. cbn [flat_map].
  rewrite !app_nil_r. unfold mret, parser_ret. simpl. eauto.
Qed.

(** [strptime] reads exactly the texts of [date_text], and what it
    returns is the date they write. *)
Lemma strptime_Ymd_spec (s : string) (dt : datetime) :
  strptime_Ymd s = Ok dt <-> date_text (chars s) dt.
Proof.
  unfold strptime_Ymd, date_text. split.
  - destruct (format_regex (chars s)) as [|[[[y m] d] rest] junk] eqn:E; [discriminate |].
    destruct rest; [| discriminate].
    destruct (valid_date y m d) eqn:V; [| discriminate].
    intros H. injection H as <-. cbn [year month day].
    assert (Hin : In ((y, m, d), []) (format_regex (chars s))) by (rewrite E; now left).
    apply format_regex_sound in Hin as (ys & ms & ds & El & H).
    rewrite app_nil_r in El.
    exists ys, ms, ds. intuition.
  - intros (ys & ms & ds & -> & Ly & Ny & Lm & Nm & Hd & V).
    destruct (valid_date_bounds _ _ _ V) as [Rm Rd].
    destruct (format_regex_complete ys ms ds _ _ _ Ly Ny Lm Nm Rm Hd Rd) as [junk ->].
    rewrite V. now destruct dt.
Qed.

Lemma strptime_Ymd_raises (s : string) (e : exn) :
  strptime_Ymd s = Raise e -> e = ValueError.
Proof.
  unfold strptime_Ymd.
  destruct (format_regex (chars s)) as [|[[[y m] d] rest] junk].
  - intros H. now injection H.
  - destruct rest; [destruct (valid_date y m d) |]; intros H;
      [discriminate | now injection H | now injection H].
Qed.

Lemma strptime_Ymd_rejects (s : string) :
  (forall dt, ~ date_text (chars s) dt) -> strptime_Ymd s = Raise ValueError.
Proof.
  intros H. destruct (strptime_Ymd s) as [dt | e] eqn:E.
  - apply strptime_Ymd_spec in E. now apply H in E.
  - now apply strptime_Ymd_raises in E as ->.
Qed.

(** ** create_stac_collection *)


Lemma temporal_bound_str (tmp : value) (i : nat) (s : string) :
  getitem tmp i = Ok (VStr s) ->
  temporal_bound tmp i = rbind (strptime_Ymd s) (fun dt => Ok (Some dt)).
Proof. unfold temporal_bound. now intros ->. Qed.

Lemma built_info_lookup_other (m : gmap string value) sp start stop (k : string) :
  k <> "spatialextent" -> k <> "temporalextent" -> k <> "extent" -> k <> "summaries" ->
  built_info m sp start stop !! k = m !! k.
Proof.
  intros H1 H2 H3 H4. unfold built_info.
  rewrite !lookup_insert_ne by congruence.
  now rewrite !lookup_delete_ne by congruence.
Qed.

Lemma built_info_dom (m : gmap string value) sp start stop :
  dom (built_info m sp start stop)
  = {[ "summaries"; "extent" ]} ∪ (dom m ∖ {[ "spatialextent"; "temporalextent" ]}).
Proof.
  unfold built_info. rewrite !dom_insert_L, !dom_delete_L. set_solver.
Qed.

Lemma given_built_info (m : gmap string value) sp start stop (k : string) :
  k <> "spatialextent" -> k <> "temporalextent" -> k <> "extent" -> k <> "summaries" ->
  given (built_info m sp start stop) k = given m k.
Proof. intros. unfold given. now rewrite built_info_lookup_other. Qed.

Lemma not_given_default (m : gmap string value) (k : string) :
  given m k = false -> default VNone (m !! k) = VNone.
Proof.
  unfold given. destruct (m !! k) as [v |]; [| reflexivity].
  destruct v; try discriminate. reflexivity.
Qed.

(** What the constructor stores for a plain collection. *)
Definition plain_collection (release : pystac_release) (id : string)
    (description extent title license keywords summaries : value) : Collection :=
  {| c_id := id;
     c_description := description;
     c_extent := extent;
     c_title := title;
     c_stac_extensions := VList [];
     c_extra_fields := VDict ∅;
     c_self_href := None;
     c_catalog_type := VNone;
     c_license := license;
     c_keywords := keywords;
     c_providers := VNone;
     c_summaries := summaries |}.

Lemma Collection_init_built (release : pystac_release) (id : string)
    (m : gmap string value) sp start stop description :
  well_formed_descriptor m = true ->
  m !! "description" = Some description ->
  Collection_init release id (built_info m sp start stop) =
    Ok (plain_collection release id description
          (Extent (SpatialExtent [sp]) (TemporalExtent [(start, stop)]))
          (default VNone (m !! "title"))
          (default (VStr (default_license release)) (m !! "license"))
          (default VNone (m !! "keywords"))
          placeholder_summaries).
Proof.
  intros Hwf Hd. unfold well_formed_descriptor in Hwf.
  apply andb_true_iff in Hwf as [Hwf Hnm].
  apply andb_true_iff in Hwf as [Hwf Hdom].
  apply andb_true_iff in Hwf as [_ Hid].
  apply bool_decide_eq_true in Hid, Hdom.
  unfold Collection_init.
  rewrite bool_decide_eq_false_2.
  2:{ rewrite built_info_dom. set_solver. }
  rewrite bool_decide_eq_true_2.
  2:{ rewrite built_info_dom. set_solver. }
  simpl negb. cbv iota.
  rewrite (built_info_lookup_other m sp start stop "description") by discriminate.
  rewrite Hd.
  replace (built_info m sp start stop !! "extent") with
    (Some (Extent (SpatialExtent [sp]) (TemporalExtent [(start, stop)]))).
  2:{ unfold built_info. rewrite lookup_insert_ne by discriminate.
      now rewrite lookup_insert_eq. }
  cbv zeta.
  rewrite !(built_info_lookup_other m sp start stop) by discriminate.
  replace (built_info m sp start stop !! "summaries") with (Some placeholder_summaries).
  2:{ unfold built_info. now rewrite lookup_insert_eq. }
  simpl in Hnm. unfold Collection_object_parameters in Hnm.
  cbn [forallb] in Hnm.
  repeat (apply andb_true_iff in Hnm as [?H Hnm]).
  repeat match goal with H : negb (given m ?k) = true |- _ =>
    apply negb_true_iff, not_given_default in H; rewrite H; clear H end.
  reflexivity.
Qed.

Lemma lookup_set_if_ne (c : bool) (k k' : string) (v : value) (d : gmap string value) :
  k <> k' -> set_if c k v d !! k' = d !! k'.
Proof. intros H. unfold set_if. destruct c; [now rewrite lookup_insert_ne | reflexivity]. Qed.

Lemma placeholder_not_empty :
  is_empty placeholder_summaries = Ok false.
Proof. reflexivity. Qed.

Lemma placeholder_to_dict :
  to_dict placeholder_summaries
  = Ok (VDict {[ "needs_summaries_update" := VList [VStr "true"] ]}).
Proof. reflexivity. Qed.


Lemma well_formed_has_description (m : gmap string value) :
  well_formed_descriptor m = true -> exists d, m !! "description" = Some d.
Proof.
  unfold well_formed_descriptor. intros H.
  repeat (apply andb_true_iff in H as [H _]).
  apply bool_decide_eq_true in H. destruct H as [d H]. now exists d.
Qed.


Section Builder_properties.

Variable release : pystac_release.

(** The builder, step by step, on a mapping that has both extents. *)
Lemma create_stac_collection_spec
    (collection_id : string) (m : gmap string value) (sp tmp : value) :
  m !! "spatialextent" = Some sp ->
  m !! "temporalextent" = Some tmp ->
  create_stac_collection release collection_id m =
    match temporal_bound tmp 0 with
    | Raise e => (Raise e, delete "temporalextent" (delete "spatialextent" m))
    | Ok start =>
        match temporal_bound tmp 1 with
        | Raise e => (Raise e, delete "temporalextent" (delete "spatialextent" m))
        | Ok stop =>
            (rbind (Collection_init release collection_id (built_info m sp start stop))
                   (Collection_to_dict release),
             built_info m sp start stop)
        end
    end.
Proof.
  intros Hsp Htmp.
  unfold create_stac_collection, mbind, st_bind, dict_pop.
  rewrite Hsp. rewrite lookup_delete_ne by discriminate. rewrite Htmp.
  unfold st_lift.
  destruct (temporal_bound tmp 0) as [start | e]; [| reflexivity].
  destruct (temporal_bound tmp 1) as [stop | e]; [| reflexivity].
  unfold dict_setitem, dict_items. fold placeholder_summaries.
  fold (built_info m sp start stop).
  destruct (Collection_init _ _ _); reflexivity.
Qed.



Lemma Collection_to_dict_built (id : string) (description title license keywords sp : value)
    (start stop : option datetime) :
  exists doc,
    Collection_to_dict release
      (plain_collection release id description
         (Extent (SpatialExtent [sp]) (TemporalExtent [(start, stop)]))
         title license keywords placeholder_summaries) = Ok (VDict doc)
    /\ doc !! "id" = Some (VStr id)
    /\ doc !! "description" = Some description
    /\ doc !! "license" = Some license
    /\ doc !! "extent"
       = Some (extent_document (SpatialExtent [sp]) (bound_to_dict start) (bound_to_dict stop))
    /\ doc !! "summaries"
       = Some (VDict {[ "needs_summaries_update" := VList [VStr "true"] ]}).
Proof.
  unfold Collection_to_dict, plain_collection.
  cbn [c_id c_description c_extent c_title c_license c_keywords c_summaries
       c_stac_extensions c_extra_fields c_self_href c_catalog_type c_providers].
  cbn [rbind truthy set_if update_from].
  rewrite (left_id_L ∅ (∪)).
  unfold Extent, to_dict at 1, TemporalExtent. cbn [rbind].
  rewrite placeholder_not_empty. cbn [rbind]. rewrite placeholder_to_dict. cbn [rbind].
  eexists. split; [reflexivity |].
  repeat split.
  - rewrite lookup_insert_ne by discriminate. rewrite lookup_set_if_ne by discriminate.
    rewrite !lookup_insert_ne by discriminate. rewrite lookup_set_if_ne by discriminate.
    reflexivity.
  - rewrite lookup_insert_ne by discriminate. rewrite lookup_set_if_ne by discriminate.
    rewrite !lookup_insert_ne by discriminate. rewrite lookup_set_if_ne by discriminate.
    reflexivity.
  - rewrite lookup_insert_ne by discriminate. rewrite lookup_set_if_ne by discriminate.
    now rewrite lookup_insert_eq.
  - rewrite lookup_insert_ne by discriminate. rewrite lookup_set_if_ne by discriminate.
    rewrite lookup_insert_ne by discriminate. now rewrite lookup_insert_eq.
  - now rewrite lookup_insert_eq.
Qed.


(** The builder on a well-formed descriptor whose bounds are read. *)
Lemma create_stac_collection_returns
    (collection_id : string) (m : gmap string value) (sp tmp : value)
    (start stop : option datetime) :
  well_formed_descriptor m = true ->
  m !! "spatialextent" = Some sp ->
  m !! "temporalextent" = Some tmp ->
  temporal_bound tmp 0 = Ok start ->
  temporal_bound tmp 1 = Ok stop ->
  exists doc,
    create_stac_collection release collection_id m
      = (Ok (VDict doc), built_info m sp start stop)
    /\ doc !! "id" = Some (VStr collection_id)
    /\ doc !! "description" = m !! "description"
    /\ doc !! "license"
       = Some (default (VStr (default_license release)) (m !! "license"))
    /\ doc !! "extent"
       = Some (extent_document (SpatialExtent [sp]) (bound_to_dict start) (bound_to_dict stop))
    /\ doc !! "summaries"
       = Some (VDict {[ "needs_summaries_update" := VList [VStr "true"] ]}).
Proof.
  intros Hwf Hsp Htmp H0 H1.
  destruct (well_formed_has_description m Hwf) as [d Hd].
  rewrite (create_stac_collection_spec collection_id m sp tmp Hsp Htmp), H0, H1.
  rewrite (Collection_init_built release collection_id m sp start stop d Hwf Hd).
  cbn [rbind].
  destruct (Collection_to_dict_built collection_id d
              (default VNone (m !! "title"))
              (default (VStr (default_license release)) (m !! "license"))
              (default VNone (m !! "keywords")) sp start stop)
    as (doc & -> & Hid & Hdesc & Hlic & Hext & Hsum).
  exists doc. rewrite Hd. repeat split; assumption.
Qed.



(** C6, as the code has it.  On a mapping that has both extents the
    builder removes the keys spatialextent and temporalextent from the
    caller's mapping and no other key; every key besides these two and
    besides extent and summaries keeps its value.  When both bounds are
    read, extent and summaries are set in the caller's mapping to the
    objects built (over whatever was there), and the mapping as it then
    stands is what the Collection constructor is called with.  When
    reading a bound raises, the exception is the result, the constructor
    is not called, and the mapping is the caller's without the two
    extents: extent and summaries are as the caller had them. *)
Theorem create_stac_collection_frame
    (collection_id : string) (m : gmap string value) (sp tmp : value) :
  m !! "spatialextent" = Some sp ->
  m !! "temporalextent" = Some tmp ->
  let out := create_stac_collection release collection_id m in
  snd out !! "spatialextent" = None
  /\ snd out !! "temporalextent" = None
  /\ (forall k,
        k <> "spatialextent" -> k <> "temporalextent" ->
        k <> "extent" -> k <> "summaries" ->
        snd out !! k = m !! k)
  /\ (forall start stop,
        temporal_bound tmp 0 = Ok start ->
        temporal_bound tmp 1 = Ok stop ->
        fst out = rbind (Collection_init release collection_id (snd out))
                        (Collection_to_dict release)
        /\ snd out !! "extent"
           = Some (Extent (SpatialExtent [sp]) (TemporalExtent [(start, stop)]))
        /\ snd out !! "summaries" = Some placeholder_summaries
        /\ dom (snd out)
           = {[ "summaries"; "extent" ]}
             ∪ (dom m ∖ {[ "spatialextent"; "temporalextent" ]}))
  /\ (forall e,
        temporal_bound tmp 0 = Raise e
        \/ (exists start, temporal_bound tmp 0 = Ok start)
           /\ temporal_bound tmp 1 = Raise e ->
        fst out = Raise e
        /\ snd out = delete "temporalextent" (delete "spatialextent" m)
        /\ snd out !! "extent" = m !! "extent"
        /\ snd out !! "summaries" = m !! "summaries").
Proof.
  intros Hsp Htmp. cbv zeta.
  rewrite (create_stac_collection_spec collection_id m sp tmp Hsp Htmp).
  assert (Hdel : forall k,
            k <> "spatialextent" -> k <> "temporalextent" ->
            delete "temporalextent" (delete "spatialextent" m) !! k = m !! k).
  { intros k ? ?. now rewrite !lookup_delete_ne by congruence. }
  assert (Hsp' : delete "temporalextent" (delete "spatialextent" m) !! "spatialextent"
                 = None).
  { rewrite lookup_delete_ne by discriminate. apply lookup_delete_eq. }
  assert (Htmp' : delete "temporalextent" (delete "spatialextent" m) !! "temporalextent"
                  = None) by apply lookup_delete_eq.
  split; [| split; [| split; [| split]]].
  - destruct (temporal_bound tmp 0); [| exact Hsp'].
    destruct (temporal_bound tmp 1); [| exact Hsp'].
    cbn [snd]. unfold built_info. now rewrite !lookup_insert_ne by discriminate.
  - destruct (temporal_bound tmp 0); [| exact Htmp'].
    destruct (temporal_bound tmp 1); [| exact Htmp'].
    cbn [snd]. unfold built_info. now rewrite !lookup_insert_ne by discriminate.
  - intros k H1 H2 H3 H4.
    destruct (temporal_bound tmp 0); [| now apply Hdel].
    destruct (temporal_bound tmp 1); [| now apply Hdel].
    cbn [snd]. now apply built_info_lookup_other.
  - intros start stop -> ->. cbn [fst snd].
    split; [reflexivity |]. split; [| split].
    + unfold built_info. rewrite lookup_insert_ne by discriminate. apply lookup_insert_eq.
    + unfold built_info. apply lookup_insert_eq.
    + apply built_info_dom.
  - intros e [-> | [[start ->] ->]]; cbn [fst snd];
      (split; [reflexivity |]); (split; [reflexivity |]);
      (split; apply Hdel; discriminate).
Qed.


(** A descriptor with an [id] of its own is refused by the constructor:
    the id is then given twice. *)
Lemma descriptor_with_id_raises
    (collection_id : string) (m : gmap string value) (sp tmp id : value)
    (start stop : option datetime) :
  m !! "spatialextent" = Some sp ->
  m !! "temporalextent" = Some tmp ->
  m !! "id" = Some id ->
  temporal_bound tmp 0 = Ok start ->
  temporal_bound tmp 1 = Ok stop ->
  fst (create_stac_collection release collection_id m) = Raise TypeError.
Proof.
  intros Hsp Htmp Hid H0 H1.
  rewrite (create_stac_collection_spec collection_id m sp tmp Hsp Htmp), H0, H1.
  cbn [fst]. unfold Collection_init.
  rewrite bool_decide_eq_true_2; [reflexivity |].
  apply elem_of_dom. rewrite built_info_lookup_other by discriminate. eauto.
Qed.

(** C8, as the code has it.  When the temporalextent is a list of two
    bounds, each null or a string, and one of them is a string that is
    not a date of the calendar in the format [strptime] reads for
    [%Y-%m-%d] (four digits, a month and a day of one or two digits),
    the builder raises [ValueError] and catches nothing: the caller gets
    the exception, with both extents already removed from the mapping. *)
Theorem bad_date_propagates
    (collection_id : string) (m : gmap string value) (sp b0 b1 : value)
    (rest : list value) (s : string) :
  m !! "spatialextent" = Some sp ->
  m !! "temporalextent" = Some (VList (b0 :: b1 :: rest)) ->
  null_or_str b0 = true -> null_or_str b1 = true ->
  b0 = VStr s \/ b1 = VStr s ->
  (forall dt, ~ date_text (chars s) dt) ->
  create_stac_collection release collection_id m
    = (Raise ValueError, delete "temporalextent" (delete "spatialextent" m)).
Proof.
  intros Hsp Htmp N0 N1 Hs Hbad.
  rewrite (create_stac_collection_spec collection_id m sp _ Hsp Htmp).
  apply strptime_Ymd_rejects in Hbad.
  assert (B0 : temporal_bound (VList (b0 :: b1 :: rest)) 0 = Raise ValueError
               \/ (exists start, temporal_bound (VList (b0 :: b1 :: rest)) 0 = Ok start)
                  /\ b0 <> VStr s).
  { destruct b0; try discriminate N0.
    - right. split; [now exists None | discriminate].
    - unfold temporal_bound. simpl.
      destruct (strptime_Ymd s0) as [dt | e] eqn:E.
      + right. split; [now exists (Some dt) |]. intros [= ->]. congruence.
      + left. now apply strptime_Ymd_raises in E as ->. }
  destruct B0 as [-> | [[start ->] Hne]]; [reflexivity |].
  destruct Hs as [-> | ->]; [contradiction |].
  unfold temporal_bound. simpl. now rewrite Hbad.
Qed.

End Builder_properties.

(** ** The builder on concrete descriptors *)





(** C6 as the specification states it fails: a [summaries] key of the
    caller stays in the mapping and is not forwarded as it was. *)
Lemma summaries_key_is_overwritten :
  (<[ "summaries" := VStr "mine" ]> example_descriptor) !! "summaries" = Some (VStr "mine")
  /\ snd (create_stac_collection some_release "c1"
            (<[ "summaries" := VStr "mine" ]> example_descriptor)) !! "summaries"
     = Some placeholder_summaries
  /\ placeholder_summaries <> VStr "mine".
Proof. split; [| split]; [vm_compute; reflexivity | vm_compute; reflexivity | discriminate]. Qed.

Lemma create_stac_collection_frame_witness :
  snd (create_stac_collection some_release "c1" example_descriptor) !! "spatialextent" = None
  /\ snd (create_stac_collection some_release "c1" example_descriptor) !! "title"
     = Some (VStr "t")
  /\ snd (create_stac_collection some_release "c1"
            (<[ "temporalextent" := VList [VStr "2000/01/01"; VNone] ]> example_descriptor))
       !! "extent" = None.
Proof.
  destruct (create_stac_collection_frame some_release "c1" example_descriptor
              (VList [VInt (-180); VInt (-90); VInt 180; VInt 90])
              (VList [VStr "2000-01-01"; VStr "2020-12-31"]))
    as (H1 & _ & H3 & _); [vm_compute; reflexivity | vm_compute; reflexivity |].
  split; [exact H1 |]. split.
  - rewrite H3 by discriminate. vm_compute; reflexivity.
  - destruct (create_stac_collection_frame some_release "c1"
                (<[ "temporalextent" := VList [VStr "2000/01/01"; VNone] ]> example_descriptor)
                (VList [VInt (-180); VInt (-90); VInt 180; VInt 90])
                (VList [VStr "2000/01/01"; VNone]))
      as (_ & _ & _ & _ & H5); [vm_compute; reflexivity | vm_compute; reflexivity |].
    destruct (H5 ValueError) as (_ & _ & -> & _); [left; reflexivity |].
    vm_compute; reflexivity.
Defined.

(** C8 as the specification states it fails: a bound that is not
    YYYY-MM-DD is read all the same when its month or day has one
    digit. *)
Lemma one_digit_date_is_read :
  strict_Ymd (chars "2000-1-1") = false
  /\ strptime_Ymd "2000-1-1" = Ok {| year := 2000; month := 1; day := 1 |}
  /\ exists doc,
       fst (create_stac_collection some_release "c1"
              (<[ "temporalextent" := VList [VStr "2000-1-1"; VNone] ]> example_descriptor))
         = Ok (VDict doc)
       /\ doc !! "extent"
          = Some (extent_document
                    (VList [VList [VInt (-180); VInt (-90); VInt 180; VInt 90]])
                    (VStr "2000-01-01T00:00:00Z") VNone).
Proof.
  split; [reflexivity |]. split; [reflexivity |].
  eexists. split; vm_compute; reflexivity.
Qed.

Lemma bad_date_propagates_witness :
  fst (create_stac_collection some_release "c1"
         (<[ "temporalextent" := VList [VStr "2000/01/01"; VNone] ]> example_descriptor))
    = Raise ValueError.
Proof.
  rewrite (bad_date_propagates some_release "c1"
             (<[ "temporalextent" := VList [VStr "2000/01/01"; VNone] ]> example_descriptor)
             (VList [VInt (-180); VInt (-90); VInt 180; VInt 90])
             (VStr "2000/01/01") VNone [] "2000/01/01").
  - reflexivity.
  - vm_compute; reflexivity.
  - vm_compute; reflexivity.
  - reflexivity.
  - reflexivity.
  - now left.
  - intros dt H. apply strptime_Ymd_spec in H. vm_compute in H. discriminate H.
Defined.

(* ----------------------------------------------------------------- *)
(** * Further properties of the code *)

(** ** More on the client *)

Section Client_edges.

Variable net : network.
Variable str_of : value -> string.

(** X1.  [stac_collection_exists] has no handler: when the GET fails in
    transport the exception of requests reaches the caller, after the one
    request, which is sent with certificate verification off. *)
Theorem stac_collection_exists_propagates
    (stac_host collection_id : string) (tr : list event) (c : requests_exception) :
  net (requests_sent tr)
      (get_request (join stac_host ["collections"; collection_id]) false) = Fails c ->
  stac_collection_exists net stac_host collection_id tr
    = (Raise (RequestsError c),
       tr ++ [Sent (get_request (join stac_host ["collections"; collection_id]) false)]).
Proof.
  intros H.
  unfold stac_collection_exists, requests_get, mbind, io_bind.
  rewrite requests_call_spec.
  fold (get_request (join stac_host ["collections"; collection_id]) false).
  now rewrite H.
Qed.

(** X2.  [stac_host_reachable] makes exactly one request, a GET of the
    URL as given with certificate verification on, and answers true
    exactly when a response comes back whose status is below 400 or
    above 599: a final 1xx or 3xx status counts as reachable. *)
Theorem stac_host_reachable_iff (url : string) (tr : list event) :
  snd (stac_host_reachable net url tr) = tr ++ [Sent (get_request url true)]
  /\ (fst (stac_host_reachable net url tr) = Ok true <->
      exists status_code,
        net (requests_sent tr) (get_request url true) = Response status_code
        /\ (status_code < 400 \/ 600 <= status_code)).
Proof.
  rewrite stac_host_reachable_spec. cbn [fst snd]. split; [reflexivity |].
  destruct (net _ _) as [status_code | c | e].
  - split.
    + intros [= H]. exists status_code. split; [reflexivity |].
      apply negb_true_iff, andb_false_iff in H as [H | H];
        [apply Z.leb_gt in H | apply Z.ltb_ge in H]; lia.
    + intros (s & [= <-] & H). f_equal.
      apply negb_true_iff, andb_false_iff.
      destruct H; [left; apply Z.leb_gt | right; apply Z.ltb_ge]; lia.
  - split; [discriminate | intros (s & H & _); discriminate].
  - split; [| intros (s & H & _); discriminate].
    destruct (caught_by _ e); discriminate.
Qed.

(** X3.  A document without an [id] makes [post_stac_collection] raise
    [KeyError] before anything is sent or printed. *)
Theorem post_stac_collection_without_id
    (stac_host : string) (json_data : gmap string value) (tr : list event) :
  json_data !! "id" = None ->
  post_stac_collection net str_of stac_host json_data tr
    = (Raise (KeyError (VStr "id")), tr).
Proof.
  intros H. unfold post_stac_collection, mbind, io_bind, io_lift, dict_getitem.
  now rewrite H.
Qed.

(** X4.  When the POST is answered 200, [post_stac_collection] does not
    return: building the line it is about to print reads
    [bcolors.OKGREEN], [bcolors] is bound nowhere, and the function
    raises [NameError] after the POST, with nothing printed and nothing
    more sent. *)
Theorem post_stac_collection_created_raises
    (stac_host : string) (json_data : gmap string value) (collection_id : value)
    (tr : list event) :
  json_data !! "id" = Some collection_id ->
  net (requests_sent tr) (post_request stac_host json_data) = Response 200 ->
  post_stac_collection net str_of stac_host json_data tr
    = (Raise (NameError "bcolors"), tr ++ [Sent (post_request stac_host json_data)]).
Proof.
  intros Hid H.
  rewrite (post_stac_collection_spec net str_of stac_host json_data collection_id tr Hid).
  cbv zeta. now rewrite H.
Qed.

(** X5.  When the POST fails in transport, [post_stac_collection] lets
    the exception of requests through: nothing is printed and no PUT is
    tried. *)
Theorem post_stac_collection_post_fails
    (stac_host : string) (json_data : gmap string value) (collection_id : value)
    (tr : list event) (c : requests_exception) :
  json_data !! "id" = Some collection_id ->
  net (requests_sent tr) (post_request stac_host json_data) = Fails c ->
  post_stac_collection net str_of stac_host json_data tr
    = (Raise (RequestsError c), tr ++ [Sent (post_request stac_host json_data)]).
Proof.
  intros Hid H.
  rewrite (post_stac_collection_spec net str_of stac_host json_data collection_id tr Hid).
  cbv zeta. now rewrite H.
Qed.

(** X6.  Whatever the server does, the requests of one call of
    [post_stac_collection] are none, the POST alone, or the POST and
    then the PUT: both go to [os.path.join(host, "collections")], both
    carry the document unchanged, both with certificate verification
    off.  The function never sends a GET and never verifies a
    certificate. *)
Theorem post_stac_collection_requests
    (stac_host : string) (json_data : gmap string value) (tr : list event) :
  exists new,
    snd (post_stac_collection net str_of stac_host json_data tr) = tr ++ new
    /\ (requests_sent new = []
        \/ requests_sent new = [post_request stac_host json_data]
        \/ requests_sent new
           = [post_request stac_host json_data; put_request stac_host json_data])
    /\ Forall (fun r => verify r = false
                        /\ url r = join stac_host ["collections"]
                        /\ json r = Some (VDict json_data)
                        /\ method r <> GET)
              (requests_sent new).
Proof.
  rewrite post_stac_collection_trace.
  destruct (json_data !! "id").
  - exists [Sent (post_request stac_host json_data)].
    split; [reflexivity |]. split; [now right; left |].
    repeat constructor. discriminate.
  - exists []. split; [now rewrite app_nil_r |]. split; [now left | constructor].
Qed.

(** X7.  The update path cannot be reached.  Whatever the server does,
    one call of [post_stac_collection] prints nothing and sends no PUT:
    it adds to the trace the POST alone, or nothing when the document
    has no [id].  It returns normally exactly when the POST is answered
    with a status that is neither 200, nor 409, nor a 4xx or 5xx. *)
Theorem post_stac_collection_never_updates
    (stac_host : string) (json_data : gmap string value) (tr : list event) :
  let out := post_stac_collection net str_of stac_host json_data tr in
  (snd out = tr \/ snd out = tr ++ [Sent (post_request stac_host json_data)])
  /\ (fst out = Ok tt <->
      is_Some (json_data !! "id")
      /\ exists r,
           net (requests_sent tr) (post_request stac_host json_data) = Response r
           /\ r <> 200 /\ r <> 409 /\ (r < 400 \/ 600 <= r)).
Proof.
  cbv zeta. split.
  - rewrite post_stac_collection_trace. destruct (json_data !! "id"); auto.
  - destruct (json_data !! "id") as [cid |] eqn:Hid.
    + rewrite (post_stac_collection_spec net str_of stac_host json_data cid tr Hid).
      cbv zeta. cbn [fst].
      destruct (net _ _) as [r | c | e].
      * destruct (Z.eqb_spec r 200) as [-> | H200];
          [split; [discriminate | intros (_ & r & [= <-] & H & _); lia] |].
        destruct (Z.eqb_spec r 409) as [-> | H409];
          [split; [discriminate | intros (_ & r & [= <-] & _ & H & _); lia] |].
        cbn [orb].
        destruct ((400 <=? r) && (r <? 600)) eqn:E.
        -- split; [discriminate |]. intros (_ & r' & [= <-] & _ & _ & H).
           apply andb_true_iff in E as [E1 E2].
           apply Z.leb_le in E1. apply Z.ltb_lt in E2. lia.
        -- split; [| reflexivity]. intros _. split; [eauto |].
           exists r. repeat split; try assumption.
           apply andb_false_iff in E as [E | E];
             [apply Z.leb_gt in E | apply Z.ltb_ge in E]; lia.
      * split; [discriminate | intros (_ & r & H & _); discriminate].
      * split; [discriminate | intros (_ & r & H & _); discriminate].
    + rewrite post_no_id by exact Hid. cbn [fst].
      split; [discriminate | intros ([v Hv] & _); discriminate].
Qed.

End Client_edges.

(** ** More on the request URLs *)

(** X8.  A host written with one final slash gives the same request
    URLs as the host written without: for the collections endpoint and
    for every collection id. *)
Theorem final_slash_on_host_is_harmless (stac_host collection_id : string) :
  stac_host <> "" -> endswith_sep stac_host = false ->
  join (stac_host +:+ "/") ["collections"] = join stac_host ["collections"]
  /\ join (stac_host +:+ "/") ["collections"; collection_id]
     = join stac_host ["collections"; collection_id].
Proof.
  intros Hne He.
  assert (H1 : String.eqb stac_host "" = false).
  { destruct (String.eqb stac_host "") eqn:E; [| reflexivity].
    apply eqb_empty in E. contradiction. }
  assert (H2 : endswith_sep (stac_host +:+ "/") = true)
    by now rewrite endswith_sep_append.
  split.
  - unfold join, fold_left, join_step. cbn [startswith_sep].
    rewrite H1, He, H2, orb_true_r. cbn [orb]. now rewrite !append_assoc.
  - rewrite !join_collection_id.
    destruct (startswith_sep collection_id); [reflexivity |].
    rewrite H1, He, H2, orb_true_r. cbn [orb]. now rewrite !append_assoc.
Qed.

(** X9.  With an empty collection id the GET of
    [stac_collection_exists] goes to the collections endpoint itself,
    with a slash after it: to [host/collections/] for a plain host. *)
Theorem empty_id_targets_the_listing (net : network) (stac_host : string)
    (tr : list event) :
  join stac_host ["collections"; ""] = join stac_host ["collections"] +:+ "/"
  /\ snd (stac_collection_exists net stac_host "" tr)
     = tr ++ [Sent (get_request (join stac_host ["collections"] +:+ "/") false)].
Proof.
  assert (E : join stac_host ["collections"; ""] = join stac_host ["collections"] +:+ "/").
  { rewrite join_two. change (join stac_host ["collections"])
      with (join_step stac_host "collections").
    destruct (collections_url_tail stac_host) as (p & Hp & Hne).
    rewrite join_plain; [now rewrite append_nil_r | | | reflexivity].
    - rewrite Hp. destruct p; [contradiction | discriminate].
    - rewrite Hp. now rewrite endswith_sep_append. }
  split; [exact E |].
  unfold stac_collection_exists, requests_get, mbind, io_bind.
  rewrite requests_call_spec, E. now destruct (net _ _).
Qed.

(** ** More on the builder *)

Section Builder_edges.

Variable release : pystac_release.

(** The first [pop] fails. *)
Lemma create_no_spatialextent (collection_id : string) (m : gmap string value) :
  m !! "spatialextent" = None ->
  create_stac_collection release collection_id m
    = (Raise (KeyError (VStr "spatialextent")), m).
Proof.
  intros H. unfold create_stac_collection, mbind, st_bind, dict_pop. now rewrite H.
Qed.

(** X10.  Without a [spatialextent] the builder raises [KeyError] for
    that key and leaves the caller's mapping as it was. *)
Theorem create_without_spatialextent (collection_id : string) (m : gmap string value) :
  m !! "spatialextent" = None ->
  create_stac_collection release collection_id m
    = (Raise (KeyError (VStr "spatialextent")), m).
Proof.
  intros H. unfold create_stac_collection, mbind, st_bind, dict_pop. now rewrite H.
Qed.

(** The second [pop] fails. *)
Lemma create_no_temporalextent
    (collection_id : string) (m : gmap string value) (sp : value) :
  m !! "spatialextent" = Some sp ->
  m !! "temporalextent" = None ->
  create_stac_collection release collection_id m
    = (Raise (KeyError (VStr "temporalextent")), delete "spatialextent" m).
Proof.
  intros H1 H2. unfold create_stac_collection, mbind, st_bind, dict_pop.
  rewrite H1. rewrite lookup_delete_ne by discriminate. now rewrite H2.
Qed.

(** X11.  With a [spatialextent] and no [temporalextent] the builder
    raises [KeyError] for the latter, and the caller's mapping has
    already lost its [spatialextent]. *)
Theorem create_without_temporalextent
    (collection_id : string) (m : gmap string value) (sp : value) :
  m !! "spatialextent" = Some sp ->
  m !! "temporalextent" = None ->
  create_stac_collection release collection_id m
    = (Raise (KeyError (VStr "temporalextent")), delete "spatialextent" m).
Proof.
  intros H1 H2. unfold create_stac_collection, mbind, st_bind, dict_pop.
  rewrite H1. rewrite lookup_delete_ne by discriminate. now rewrite H2.
Qed.

Lemma create_consumes_spatialextent (collection_id : string) (m : gmap string value) :
  snd (create_stac_collection release collection_id m) !! "spatialextent" = None.
Proof.
  destruct (m !! "spatialextent") as [sp |] eqn:Hsp.
  - destruct (m !! "temporalextent") as [tmp |] eqn:Htmp.
    + rewrite (create_stac_collection_spec release collection_id m sp tmp Hsp Htmp).
      assert (Hgone : delete "temporalextent" (delete "spatialextent" m)
                        !! "spatialextent" = None).
      { rewrite lookup_delete_ne by discriminate. apply lookup_delete_eq. }
      destruct (temporal_bound tmp 0); [| exact Hgone].
      destruct (temporal_bound tmp 1); [| exact Hgone].
      cbn [snd]. unfold built_info. now rewrite !lookup_insert_ne by discriminate.
    + rewrite (create_no_temporalextent collection_id m sp Hsp Htmp).
      apply lookup_delete_eq.
  - now rewrite (create_no_spatialextent collection_id m Hsp).
Qed.

(** X12.  The builder cannot be run twice on one mapping: whatever the
    first call did, a second call on the mapping it left raises
    [KeyError] for [spatialextent] and changes nothing more. *)
Theorem create_twice_raises (id1 id2 : string) (m : gmap string value) :
  let m' := snd (create_stac_collection release id1 m) in
  create_stac_collection release id2 m' = (Raise (KeyError (VStr "spatialextent")), m').
Proof.
  cbv zeta. apply create_no_spatialextent, create_consumes_spatialextent.
Qed.

(** X13.  A [temporalextent] of the wrong shape.  When it is null, a
    boolean or a number the builder raises [TypeError]; when it is an
    empty list, or a list of one bound that is null, it raises
    [IndexError]; when its first bound is a number, [TypeError].  In each
    case both extents are gone from the caller's mapping and nothing was
    put in. *)
Theorem create_with_misshapen_temporalextent
    (collection_id : string) (m : gmap string value) (sp tmp : value) :
  m !! "spatialextent" = Some sp ->
  m !! "temporalextent" = Some tmp ->
  let gone := delete "temporalextent" (delete "spatialextent" m) in
  ((tmp = VNone \/ (exists b, tmp = VBool b) \/ (exists z, tmp = VInt z)
    \/ (exists f, tmp = VFloat f)) ->
   create_stac_collection release collection_id m = (Raise TypeError, gone))
  /\ ((tmp = VList [] \/ tmp = VList [VNone]) ->
      create_stac_collection release collection_id m = (Raise IndexError, gone))
  /\ (forall z rest, tmp = VList (VInt z :: rest) ->
      create_stac_collection release collection_id m = (Raise TypeError, gone)).
Proof.
  intros Hsp Htmp. cbv zeta.
  rewrite (create_stac_collection_spec release collection_id m sp tmp Hsp Htmp).
  split; [| split].
  - intros [-> | [[b ->] | [[z ->] | [f ->]]]]; reflexivity.
  - intros [-> | ->]; reflexivity.
  - intros z rest ->. reflexivity.
Qed.

(** X14.  A descriptor the constructor refuses, for want of a
    [description] or for a key that is no parameter of
    [pystac.Collection], makes the builder raise [TypeError]; by then
    the caller's mapping has lost both extents and gained [extent] and
    [summaries]. *)
Theorem create_refused_by_constructor
    (collection_id : string) (m : gmap string value) (sp tmp : value)
    (start stop : option datetime) :
  m !! "spatialextent" = Some sp ->
  m !! "temporalextent" = Some tmp ->
  temporal_bound tmp 0 = Ok start ->
  temporal_bound tmp 1 = Ok stop ->
  (m !! "description" = None
   \/ exists k, is_Some (m !! k)
        /\ k ∉ "spatialextent" :: "temporalextent" :: Collection_parameters) ->
  create_stac_collection release collection_id m
    = (Raise TypeError, built_info m sp start stop).
Proof.
  intros Hsp Htmp H0 H1 H.
  rewrite (create_stac_collection_spec release collection_id m sp tmp Hsp Htmp), H0, H1.
  f_equal. unfold Collection_init.
  destruct (bool_decide ("id" ∈ dom (built_info m sp start stop))); [reflexivity |].
  destruct (bool_decide (dom (built_info m sp start stop)
                           ⊆ list_to_set Collection_parameters)) eqn:Hdom;
    [| reflexivity].
  cbn [negb rbind]. apply bool_decide_eq_true in Hdom.
  destruct H as [Hd | (k & Hk & Hnot)].
  - rewrite built_info_lookup_other by discriminate. now rewrite Hd.
  - exfalso. apply Hnot.
    assert (Hk1 : k <> "spatialextent") by (intros ->; apply Hnot; set_solver).
    assert (Hk2 : k <> "temporalextent") by (intros ->; apply Hnot; set_solver).
    do 2 (apply list_elem_of_further).
    apply (elem_of_list_to_set (C := gset string)). apply Hdom.
    rewrite built_info_dom. apply elem_of_dom in Hk. set_solver.
Qed.

(** X16.  The builder reads the first two bounds of the
    [temporalextent] and nothing after them: a list with more elements
    gives the same result and leaves the same mapping as the list of its
    first two. *)
Theorem create_ignores_further_bounds
    (collection_id : string) (m : gmap string value) (sp b0 b1 : value)
    (rest : list value) :
  m !! "spatialextent" = Some sp ->
  m !! "temporalextent" = Some (VList (b0 :: b1 :: rest)) ->
  create_stac_collection release collection_id m
    = create_stac_collection release collection_id
        (<[ "temporalextent" := VList [b0; b1] ]> m).
Proof.
  intros Hsp Htmp.
  rewrite (create_stac_collection_spec release collection_id m sp _ Hsp Htmp).
  rewrite (create_stac_collection_spec release collection_id
             (<[ "temporalextent" := VList [b0; b1] ]> m) sp (VList [b0; b1])).
  2:{ rewrite lookup_insert_ne by discriminate. exact Hsp. }
  2:{ apply lookup_insert_eq. }
  assert (E : delete "temporalextent"
                (delete "spatialextent" (<[ "temporalextent" := VList [b0; b1] ]> m))
              = delete "temporalextent" (delete "spatialextent" m)).
  { apply map_eq. intros k.
    destruct (decide (k = "temporalextent")) as [-> | Hk].
    - now rewrite !lookup_delete_eq.
    - rewrite !(lookup_delete_ne _ "temporalextent") by congruence.
      destruct (decide (k = "spatialextent")) as [-> | Hk'].
      + now rewrite !lookup_delete_eq.
      + rewrite !(lookup_delete_ne _ "spatialextent") by congruence.
        now rewrite lookup_insert_ne by congruence. }
  unfold built_info. rewrite E. reflexivity.
Qed.

End Builder_edges.

(** ** Dates through the builder *)

Lemma zero_pad_2_digits (a b : ascii) :
  is_digit a = true -> is_digit b = true ->
  zero_pad 2 (digits_value [a; b]) = text2 a b.
Proof.
  intros Ha Hb.
  assert (H : forallb (fun a => forallb (fun b =>
                String.eqb (zero_pad 2 (digits_value [a; b])) (text2 a b))
              digit_chars) digit_chars = true) by (vm_compute; reflexivity).
  rewrite forallb_forall in H. specialize (H a (is_digit_cases a Ha)).
  rewrite forallb_forall in H. specialize (H b (is_digit_cases b Hb)).
  now apply String.eqb_eq.
Qed.

Lemma zero_pad_4_digits (a b c d : ascii) :
  is_digit a = true -> is_digit b = true -> is_digit c = true -> is_digit d = true ->
  zero_pad 4 (digits_value [a; b; c; d]) = text4 a b c d.
Proof.
  intros Ha Hb Hc Hd.
  assert (H : forallb (fun a => forallb (fun b => forallb (fun c => forallb (fun d =>
                String.eqb (zero_pad 4 (digits_value [a; b; c; d])) (text4 a b c d))
              digit_chars) digit_chars) digit_chars) digit_chars = true)
    by (vm_compute; reflexivity).
  rewrite forallb_forall in H. specialize (H a (is_digit_cases a Ha)).
  rewrite forallb_forall in H. specialize (H b (is_digit_cases b Hb)).
  rewrite forallb_forall in H. specialize (H c (is_digit_cases c Hc)).
  rewrite forallb_forall in H. specialize (H d (is_digit_cases d Hd)).
  now apply String.eqb_eq.
Qed.

(** A date written YYYY-MM-DD is written back as it was. *)
Lemma strict_date_is_written_back (s : string) (dt : datetime) :
  strict_Ymd (chars s) = true ->
  strptime_Ymd s = Ok dt ->
  datetime_to_str dt = s +:+ "T00:00:00Z".
Proof.
  intros Hstrict Hparse.
  destruct s as [|y1 [|y2 [|y3 [|y4 [|h1 [|m1 [|m2 [|h2 [|d1 [|d2 [|]]]]]]]]]]];
    try discriminate Hstrict.
  cbn [list_ascii_of_string strict_Ymd forallb] in Hstrict.
  rewrite !andb_true_iff in Hstrict.
  destruct Hstrict as [[(Y1 & Y2 & Y3 & Y4 & M1 & M2 & D1 & D2 & _) E1] E2].
  apply Ascii.eqb_eq in E1, E2. subst h1 h2.
  apply strptime_Ymd_spec in Hparse.
  destruct Hparse as (ys & ms & ds & E & Ly & [_ Vy] & Lm & [_ Vm] & Hd & _).
  cbn [list_ascii_of_string] in E.
  destruct ys as [|a [|b [|c [|d [|]]]]]; try discriminate Ly.
  injection E as -> -> -> -> E.
  assert (Hms : ms = [m1; m2] /\ ds = [d1; d2]).
  { destruct ms as [|x [|y [|]]]; simpl in Lm; try lia.
    - injection E as -> E' _. subst m2. discriminate M2.
    - now injection E as -> -> ->. }
  destruct Hms as [-> ->].
  assert (Vd : digits_value [d1; d2] = day dt).
  { destruct Hd as [[_ [_ V]] | (sp & Ec & _)]; [exact V |].
    injection Ec as -> _. discriminate D1. }
  unfold datetime_to_str. rewrite <- Vy, <- Vm, <- Vd.
  rewrite zero_pad_4_digits, !zero_pad_2_digits by assumption.
  reflexivity.
Qed.

Section Builder_dates.

Variable release : pystac_release.

(** X15.  Dates written YYYY-MM-DD come out as they went in: on a
    well-formed descriptor whose two bounds are such dates of the
    calendar, the interval of the document is the pair of the same two
    texts, each followed by [T00:00:00Z]. *)
Theorem strict_dates_are_kept
    (collection_id : string) (m : gmap string value) (sp : value)
    (s0 s1 : string) (dt0 dt1 : datetime) :
  well_formed_descriptor m = true ->
  m !! "spatialextent" = Some sp ->
  m !! "temporalextent" = Some (VList [VStr s0; VStr s1]) ->
  strict_Ymd (chars s0) = true -> strptime_Ymd s0 = Ok dt0 ->
  strict_Ymd (chars s1) = true -> strptime_Ymd s1 = Ok dt1 ->
  exists doc,
    fst (create_stac_collection release collection_id m) = Ok (VDict doc)
    /\ doc !! "extent"
       = Some (extent_document (SpatialExtent [sp])
                 (VStr (s0 +:+ "T00:00:00Z")) (VStr (s1 +:+ "T00:00:00Z"))).
Proof.
  intros Hwf Hsp Htmp S0 P0 S1 P1.
  destruct (create_stac_collection_returns release collection_id m sp _
              (Some dt0) (Some dt1) Hwf Hsp Htmp)
    as (doc & E & _ & _ & _ & Hext & _).
  - unfold temporal_bound. simpl. now rewrite P0.
  - unfold temporal_bound. simpl. now rewrite P1.
  - exists doc. rewrite E. split; [reflexivity |].
    rewrite Hext. cbn [bound_to_dict].
    now rewrite (strict_date_is_written_back s0 dt0 S0 P0),
                (strict_date_is_written_back s1 dt1 S1 P1).
Qed.

End Builder_dates.

(** ** More on url_validate *)

(** The two changes of case of the ASCII letters leave [fold_case], the
    digits and the white space as they are. *)
Lemma to_lower_cases (c : codepoint) :
  to_lower c = c \/ (between (ord "A") (ord "Z") c = true /\ to_lower c = (c + 32)%N).
Proof.
  unfold to_lower. destruct (between (ord "A") (ord "Z") c); [right | left]; auto.
Qed.

Lemma to_upper_cases (c : codepoint) :
  to_upper c = c \/ (between (ord "a") (ord "z") c = true /\ to_upper c = (c - 32)%N).
Proof.
  unfold to_upper. destruct (between (ord "a") (ord "z") c); [right | left]; auto.
Qed.

Lemma to_lower_moves_ascii (c : codepoint) : to_lower c = c \/ (c < 128)%N.
Proof.
  destruct (to_lower_cases c) as [H | [H _]]; [now left | right].
  apply between_spec in H. vm_compute (ord "Z") in H. lia.
Qed.

Lemma to_upper_moves_ascii (c : codepoint) : to_upper c = c \/ (c < 128)%N.
Proof.
  destruct (to_upper_cases c) as [H | [H _]]; [now left | right].
  apply between_spec in H. vm_compute (ord "z") in H. lia.
Qed.

Section Recase.

(** A change of case: [to_lower] or [to_upper]. *)
Variable f : codepoint -> codepoint.
Hypothesis f_moves_ascii : forall c, f c = c \/ (c < 128)%N.
Hypothesis f_keeps :
  forallb (fun c => Bool.eqb (N.eqb (fold_case (f c)) (fold_case c)) true
                    && Bool.eqb (is_decimal (f c)) (is_decimal c)
                    && Bool.eqb (is_space (f c)) (is_space c)
                    && Bool.eqb (N.eqb (f c) newline) (N.eqb c newline))
          (map N.of_nat (seq 0 (N.to_nat 128))) = true.

Lemma f_keeps_at (c : codepoint) :
  fold_case (f c) = fold_case c
  /\ is_decimal (f c) = is_decimal c
  /\ is_space (f c) = is_space c
  /\ N.eqb (f c) newline = N.eqb c newline.
Proof.
  destruct (f_moves_ascii c) as [-> | H]; [auto |].
  pose proof (forallb_below _ 128 f_keeps c H) as G. cbv beta in G.
  rewrite !andb_true_iff in G. destruct G as [[[G1 G2] G3] G4].
  apply Bool.eqb_prop in G1, G2, G3, G4. apply N.eqb_eq in G1. auto.
Qed.

Lemma sym_mem_f (cs : list cset) (c : codepoint) :
  sym_mem true cs (f c) = sym_mem true cs c.
Proof.
  destruct (f_keeps_at c) as (H1 & H2 & H3 & _).
  unfold sym_mem. induction cs as [|i cs IH]; [reflexivity |].
  cbn [existsb]. rewrite IH. f_equal.
  destruct i; cbn [cset_mem_ignorecase]; now rewrite ?H1, ?H2, ?H3.
Qed.

Lemma newline_f (c : codepoint) : N.eqb (f c) newline = N.eqb c newline.
Proof. apply f_keeps_at. Qed.

Lemma deriv_recase (c : codepoint) (r : regex) : deriv true (f c) r = deriv true c r.
Proof.
  induction r as [| |cs|r1 IH1 r2 IH2|r1 IH1 r2 IH2|r IH]; simpl;
    rewrite ?sym_mem_f, ?IH1, ?IH2, ?IH; reflexivity.
Qed.

Lemma fullmatch_recase (r : regex) (s : str) :
  fullmatch true r (map f s) = fullmatch true r s.
Proof.
  revert r. induction s as [|c s IH]; intros r; simpl; [reflexivity |].
  now rewrite deriv_recase, IH.
Qed.

Lemma strip_final_newline_recase (s : str) :
  strip_final_newline (map f s) = option_map (map f) (strip_final_newline s).
Proof.
  induction s as [|c s IH]; [reflexivity |].
  destruct s as [|c' s].
  - simpl. rewrite newline_f. now destruct (N.eqb c newline).
  - change (strip_final_newline (map f (c :: c' :: s)))
      with (option_map (cons (f c)) (strip_final_newline (map f (c' :: s)))).
    rewrite IH.
    change (strip_final_newline (c :: c' :: s))
      with (option_map (cons c) (strip_final_newline (c' :: s))).
    now destruct (strip_final_newline (c' :: s)).
Qed.

Lemma re_match_dollar_recase (r : regex) (s : str) :
  re_match_dollar true r (map f s) = re_match_dollar true r s.
Proof.
  unfold re_match_dollar. rewrite fullmatch_recase, strip_final_newline_recase.
  destruct (strip_final_newline s); simpl; [now rewrite fullmatch_recase | reflexivity].
Qed.

End Recase.

(** X17.  The validator does not look at the case of letters, in the
    host or anywhere else: a string and its forms with the ASCII letters
    in lower case and in upper case are accepted or rejected together. *)
Theorem url_validate_ignores_case (target : str) :
  url_validate (lowercase target) = url_validate target
  /\ url_validate (uppercase target) = url_validate target.
Proof.
  unfold url_validate, lowercase, uppercase, IGNORECASE.
  rewrite (re_match_dollar_recase to_lower to_lower_moves_ascii)
    by (vm_compute; reflexivity).
  now rewrite (re_match_dollar_recase to_upper to_upper_moves_ascii)
    by (vm_compute; reflexivity).
Qed.

(** No letter, no digit and no hyphen is white space. *)
Lemma non_space_fold_case (c : codepoint) : non_space (fold_case c) = non_space c.
Proof.
  apply Bool.eqb_prop. revert c. apply by_bound.
  - vm_compute. reflexivity.
  - intros c H. rewrite (fold_case_above c H). apply Bool.eqb_reflx.
Qed.

Lemma non_space_letter (c : codepoint) : is_letter c = true -> non_space c = true.
Proof.
  assert (G : forall x, (negb (is_letter x) || non_space x) = true).
  { apply by_bound.
    - vm_compute. reflexivity.
    - intros x H. now rewrite (is_letter_above x H). }
  intros H. specialize (G c). now rewrite H in G.
Qed.

Lemma non_space_decimal (c : codepoint) : is_decimal c = true -> non_space c = true.
Proof.
  intros H. unfold non_space. destruct (N.ltb_spec c 0x3001) as [Hc | Hc].
  - assert (G : forall x, (x < 0x3001)%N -> (negb (is_decimal x) || negb (is_space x)) = true).
    { apply forallb_below. vm_compute. reflexivity. }
    specialize (G c Hc). now rewrite H in G.
  - now rewrite is_space_above.
Qed.

Lemma non_space_alnum_hyphen (c : codepoint) :
  is_alnum_hyphen c = true -> non_space c = true.
Proof.
  unfold is_alnum_hyphen, is_alnum. rewrite !orb_true_iff.
  intros [[H | H] | H].
  - now apply non_space_letter.
  - now apply non_space_decimal.
  - apply N.eqb_eq in H. now subst c.
Qed.

Lemma forallb_impl (p q : codepoint -> bool) (s : str) :
  (forall c, p c = true -> q c = true) -> forallb p s = true -> forallb q s = true.
Proof.
  intros H. induction s as [|c s IH]; simpl; [reflexivity |].
  rewrite !andb_true_iff. intros [H1 H2]. auto.
Qed.

Lemma non_space_of_fold_case (s l : str) :
  map fold_case s = l -> forallb non_space l = true -> forallb non_space s = true.
Proof.
  intros <-. induction s as [|c s IH]; simpl; [reflexivity |].
  rewrite non_space_fold_case. rewrite !andb_true_iff. tauto.
Qed.

Lemma is_letter_alnum_hyphen (c : codepoint) :
  is_letter c = true -> is_alnum_hyphen c = true.
Proof. unfold is_alnum_hyphen, is_alnum. now intros ->. Qed.

Lemma non_space_digits (s : str) :
  forallb is_decimal s = true -> forallb non_space s = true.
Proof. apply forallb_impl, non_space_decimal. Qed.

Lemma non_space_scheme (s : str) : is_scheme s -> forallb non_space s = true.
Proof.
  unfold is_scheme. simpl.
  intros [H | [H | [H | [H | []]]]]; symmetry in H;
    now apply (non_space_of_fold_case _ _ H).
Qed.

Lemma non_space_label (l : str) : is_label l -> forallb non_space l = true.
Proof. intros (_ & H & _). revert H. apply forallb_impl, non_space_alnum_hyphen. Qed.

Lemma non_space_labels (labels : list str) :
  Forall is_label labels -> forallb non_space (concat (map with_dot labels)) = true.
Proof.
  induction 1 as [|l labels Hl _ IH]; [reflexivity |].
  cbn [map concat]. rewrite forallb_app, IH. unfold with_dot.
  rewrite forallb_app, (non_space_label l Hl). reflexivity.
Qed.

Lemma non_space_host (h : str) : is_host h -> forallb non_space h = true.
Proof.
  intros [(labels & t & dot & _ & Hl & Ht & Hdot & ->) | [H | H]].
  - rewrite !forallb_app, (non_space_labels _ Hl).
    assert (Htld : forallb non_space t = true).
    { destruct Ht as [[_ Ht] | [_ Ht]]; revert Ht; apply forallb_impl; intros c Hc.
      - now apply non_space_alnum_hyphen, is_letter_alnum_hyphen.
      - now apply non_space_alnum_hyphen. }
    rewrite Htld. now destruct Hdot as [-> | ->].
  - now apply (non_space_of_fold_case _ _ H).
  - destruct H as (a & b & c & d & [_ Ha] & [_ Hb] & [_ Hc] & [_ Hd] & ->).
    repeat (rewrite forallb_app || cbn [forallb]).
    now rewrite !non_space_digits by assumption.
Qed.

Lemma non_space_url (s : str) : url_shape s -> forallb non_space s = true.
Proof.
  intros (scheme & host & port & path & Hs & Hh & Hp & Hq & ->).
  rewrite !forallb_app, (non_space_scheme _ Hs), (non_space_host _ Hh).
  assert (Hport : forallb non_space port = true).
  { destruct Hp as [-> | (d & _ & Hd & ->)]; [reflexivity |].
    simpl. now rewrite non_space_digits. }
  assert (Hpath : forallb non_space path = true).
  { destruct Hq as [-> | [-> | (c & rest & [-> | ->] & _ & Hr & ->)]];
      try reflexivity; simpl; now rewrite Hr. }
  now rewrite Hport, Hpath.
Qed.

(** X18.  No accepted string has white space in it, but for the one
    line feed that may end it.  So a URL with a space in its path or
    query is rejected. *)
Theorem accepted_url_has_no_space (target : str) :
  url_validate target = true ->
  exists s,
    (target = s \/ target = s ++ [newline])
    /\ forallb non_space s = true.
Proof.
  intros H. apply url_validate_spec in H as [H | (s & E & H)].
  - exists target. split; [now left | now apply non_space_url].
  - exists s. split; [now right | now apply non_space_url].
Qed.

Lemma dot_in_labels (labels : list str) :
  labels <> [] -> In (ord ".") (concat (map with_dot labels)).
Proof.
  destruct labels as [|l labels]; [contradiction |]. intros _. cbn [map concat].
  unfold with_dot. rewrite !in_app_iff. left. right. now left.
Qed.

(** X19.  Of host names without a dot the validator takes [localhost]
    only: an accepted string with no dot in it has [localhost] for its
    host, in any case of its letters ([ſ], U+017F, being a case of
    [s]). *)
Theorem dotless_host_is_localhost (target : str) :
  url_validate target = true ->
  ~ In (ord ".") target ->
  exists scheme host port path,
    is_scheme scheme /\ is_localhost host /\ is_port port /\ is_path path
    /\ (target = scheme ++ codepoints "://" ++ host ++ port ++ path
        \/ target = (scheme ++ codepoints "://" ++ host ++ port ++ path) ++ [newline]).
Proof.
  intros H Hdot.
  assert (Hs : exists s, url_shape s /\ (target = s \/ target = s ++ [newline])).
  { apply url_validate_spec in H as [H | (s & E & H)]; eauto. }
  destruct Hs as (s & (scheme & host & port & path & Hsch & Hh & Hp & Hq & ->) & E).
  exists scheme, host, port, path. repeat split; try assumption.
  destruct Hh as [(labels & t & dot & Hne & _ & _ & _ & ->) | [Hl | Hquad]];
    [exfalso | exact Hl | exfalso]; apply Hdot.
  - pose proof (dot_in_labels labels Hne) as Hin.
    destruct E as [-> | ->]; rewrite !in_app_iff; auto 10.
  - destruct Hquad as (a & b & c & d & _ & _ & _ & _ & ->).
    destruct E as [-> | ->]; rewrite !in_app_iff; auto 10 using in_eq.
Qed.

(** ** The further properties on concrete inputs *)

Lemma stac_collection_exists_propagates_witness :
  fst (stac_collection_exists (scripted [Fails ConnectTimeout]) "http://stac.example" "c1" [])
    = Raise (RequestsError ConnectTimeout).
Proof.
  rewrite (stac_collection_exists_propagates (scripted [Fails ConnectTimeout])
             "http://stac.example" "c1" [] ConnectTimeout); reflexivity.
Defined.

Lemma post_stac_collection_without_id_witness :
  post_stac_collection (scripted [Response 200]) no_str
    "http://stac.example" {[ "title" := VStr "t" ]} []
  = (Raise (KeyError (VStr "id")), []).
Proof.
  apply (post_stac_collection_without_id (scripted [Response 200]) no_str
           "http://stac.example" {[ "title" := VStr "t" ]} []).
  reflexivity.
Defined.

Lemma post_stac_collection_created_raises_witness :
  post_stac_collection (scripted [Response 200]) no_str
    "http://stac.example" {[ "id" := VStr "c1" ]} []
  = (Raise (NameError "bcolors"),
     [Sent (post_request "http://stac.example" {[ "id" := VStr "c1" ]})]).
Proof.
  apply (post_stac_collection_created_raises (scripted [Response 200]) no_str
           "http://stac.example" {[ "id" := VStr "c1" ]} (VStr "c1") []);
    reflexivity.
Defined.

Lemma post_stac_collection_post_fails_witness :
  fst (post_stac_collection (scripted [Fails SSLError]) no_str
         "http://stac.example" {[ "id" := VStr "c1" ]} [])
    = Raise (RequestsError SSLError).
Proof.
  rewrite (post_stac_collection_post_fails (scripted [Fails SSLError]) no_str
             "http://stac.example" {[ "id" := VStr "c1" ]} (VStr "c1") [] SSLError);
    reflexivity.
Defined.

Lemma final_slash_on_host_is_harmless_witness :
  join "http://stac.example/" ["collections"; "c1"]
  = join "http://stac.example" ["collections"; "c1"].
Proof.
  apply (final_slash_on_host_is_harmless "http://stac.example" "c1");
    [discriminate | reflexivity].
Defined.

Lemma create_without_spatialextent_witness :
  fst (create_stac_collection some_release "c1" {[ "description" := VStr "d" ]})
    = Raise (KeyError (VStr "spatialextent")).
Proof.
  rewrite (create_without_spatialextent some_release "c1" {[ "description" := VStr "d" ]});
    reflexivity.
Defined.

Lemma create_without_temporalextent_witness :
  snd (create_stac_collection some_release "c1"
         {[ "spatialextent" := VList []; "description" := VStr "d" ]})
    !! "spatialextent" = None.
Proof.
  rewrite (create_without_temporalextent some_release "c1"
             {[ "spatialextent" := VList []; "description" := VStr "d" ]} (VList []));
    [| vm_compute; reflexivity | vm_compute; reflexivity].
  apply lookup_delete_eq.
Defined.

Lemma create_with_misshapen_temporalextent_witness :
  fst (create_stac_collection some_release "c1"
         (<[ "temporalextent" := VList [] ]> example_descriptor))
    = Raise IndexError.
Proof.
  destruct (create_with_misshapen_temporalextent some_release "c1"
              (<[ "temporalextent" := VList [] ]> example_descriptor)
              (VList [VInt (-180); VInt (-90); VInt 180; VInt 90]) (VList []))
    as (_ & H & _); [vm_compute; reflexivity | vm_compute; reflexivity |].
  rewrite H; [reflexivity | now left].
Defined.

Lemma create_refused_by_constructor_witness :
  fst (create_stac_collection some_release "c1" (delete "description" example_descriptor))
    = Raise TypeError.
Proof.
  rewrite (create_refused_by_constructor some_release "c1"
             (delete "description" example_descriptor)
             (VList [VInt (-180); VInt (-90); VInt 180; VInt 90])
             (VList [VStr "2000-01-01"; VStr "2020-12-31"])
             (Some {| year := 2000; month := 1; day := 1 |})
             (Some {| year := 2020; month := 12; day := 31 |}));
    [reflexivity | vm_compute; reflexivity | vm_compute; reflexivity
    | reflexivity | reflexivity | left; vm_compute; reflexivity].
Defined.

Lemma strict_dates_are_kept_witness :
  exists doc,
    fst (create_stac_collection some_release "c1" example_descriptor) = Ok (VDict doc)
    /\ doc !! "extent"
       = Some (extent_document
                 (SpatialExtent [VList [VInt (-180); VInt (-90); VInt 180; VInt 90]])
                 (VStr ("2000-01-01" +:+ "T00:00:00Z"))
                 (VStr ("2020-12-31" +:+ "T00:00:00Z"))).
Proof.
  apply (strict_dates_are_kept some_release "c1" example_descriptor
           (VList [VInt (-180); VInt (-90); VInt 180; VInt 90])
           "2000-01-01" "2020-12-31"
           {| year := 2000; month := 1; day := 1 |}
           {| year := 2020; month := 12; day := 31 |});
    vm_compute; reflexivity.
Defined.

Lemma create_ignores_further_bounds_witness :
  fst (create_stac_collection some_release "c1"
         (<[ "temporalextent" := VList [VNone; VNone; VStr "junk"] ]> example_descriptor))
  = fst (create_stac_collection some_release "c1"
           (<[ "temporalextent" := VList [VNone; VNone] ]>
              (<[ "temporalextent" := VList [VNone; VNone; VStr "junk"] ]>
                 example_descriptor))).
Proof.
  rewrite (create_ignores_further_bounds some_release "c1"
             (<[ "temporalextent" := VList [VNone; VNone; VStr "junk"] ]> example_descriptor)
             (VList [VInt (-180); VInt (-90); VInt 180; VInt 90]) VNone VNone [VStr "junk"]);
    [reflexivity | vm_compute; reflexivity | vm_compute; reflexivity].
Defined.

Lemma accepted_url_has_no_space_witness :
  exists s,
    (codepoints "https://example.com/a?b=c" = s
     \/ codepoints "https://example.com/a?b=c" = s ++ [newline])
    /\ forallb non_space s = true.
Proof.
  apply (accepted_url_has_no_space (codepoints "https://example.com/a?b=c")).
  vm_compute; reflexivity.
Defined.

Lemma dotless_host_is_localhost_witness :
  exists scheme host port path,
    is_scheme scheme /\ is_localhost host /\ is_port port /\ is_path path
    /\ (codepoints "ftp://LocalHost:21/path"
        = scheme ++ codepoints "://" ++ host ++ port ++ path
        \/ codepoints "ftp://LocalHost:21/path"
           = (scheme ++ codepoints "://" ++ host ++ port ++ path) ++ [newline]).
Proof.
  apply (dotless_host_is_localhost (codepoints "ftp://LocalHost:21/path")).
  - vm_compute; reflexivity.
  - vm_compute. intuition discriminate.
Defined.
